(** * Assasim simulation core: a shallow embedding of the master

    The development follows [precompilation/simulation_basis]: [types.hpp],
    [utils/custom_heap.hpp], [interaction.hpp], [agent.hpp],
    [agent_handler.cpp], [master.cpp] and the [run] command of
    [user_interface.cpp].  Every C++ method becomes a function on an explicit
    state; a method that can throw returns a [result].

    Conventions.
    - [uint64_t] values ([AgentId], [AgentType], [Attribute], [Time],
      [size_t]) are integers in [Z]; every arithmetic operation of the source
      is followed by [wrap64].
    - [std::unordered_map] is a [gmap], [std::set] / [std::unordered_set] a
      [gset], [std::vector] a [list]; the bounds-checked accessor [at] is
      [map_at] / [vector_at] and raises [out_of_range].
    - Pointers are pairs of a block and a byte offset; [malloc] and [realloc]
      hand out fresh blocks (ISO C 7.22.3.5: [realloc] deallocates the old
      object and returns a pointer to a new one). *)

From stdpp Require Import gmap strings list fin_maps sorting pretty.

Open Scope Z_scope.

(** ** types.hpp *)

Definition wrap64 (x : Z) : Z := x mod 2 ^ 64.

Abbreviation AgentId := Z (only parsing).
Abbreviation AgentGlobalId := Z (only parsing).
Abbreviation MasterId := Z (only parsing).
Abbreviation AgentType := Z (only parsing).
Abbreviation InteractionType := Z (only parsing).
Abbreviation Attribute := Z (only parsing).
Abbreviation AgentName := string (only parsing).

(** An MPI datatype handle is represented by its extent in bytes. *)
Abbreviation MPI_Datatype := Z (only parsing).

(** Exceptions that the modelled code can raise.  [AgentNotFound] is the class
    of [types.hpp]; [out_of_range] is what [at] throws; [runtime_error] is
    thrown by [custom_heap]. *)
Inductive exn : Type :=
| AgentNotFound (id : AgentId) (type : AgentName)
| out_of_range
| runtime_error (what : string).

Inductive result (A : Type) : Type :=
| Ok (a : A)
| Throw (e : exn).
Arguments Ok {A} a.
Arguments Throw {A} e.

#[global] Instance result_ret : MRet result := fun A a => Ok a.
#[global] Instance result_bind : MBind result := fun A B f r =>
  match r with
  | Ok a => f a
  | Throw e => Throw e
  end.

Definition is_Ok {A} (r : result A) : Prop := ∃ a, r = Ok a.

(** [std::unordered_map::at] *)
Definition map_at {K V} `{Countable K} (m : gmap K V) (k : K) : result V :=
  match m !! k with
  | Some v => Ok v
  | None => Throw out_of_range
  end.

(** [std::vector::at] with a [size_t] index *)
Definition vector_at {A} (v : list A) (i : Z) : result A :=
  if decide (0 ≤ i) then
    match v !! Z.to_nat i with
    | Some x => Ok x
    | None => Throw out_of_range
    end
  else Throw out_of_range.

Record WindowDescription : Type := { size : Z; used : Z }.

(** ** Process memory *)

Definition block : Type := positive.

Inductive pointer : Type :=
| nullptr
| Ptr (b : block) (o : Z).

#[global] Instance pointer_eq_dec : EqDecision pointer.
Proof. solve_decision. Defined.

Definition ptr_add (p : pointer) (n : Z) : pointer :=
  match p with
  | nullptr => nullptr
  | Ptr b o => Ptr b (o + n)
  end.

(** The C heap: the live blocks with their bytes, and the next unused block
    name. *)
Record Memory : Type := {
  blocks : gmap block (list Z);
  next_block : block
}.

Definition malloc (n : Z) (h : Memory) : pointer * Memory :=
  (Ptr (next_block h) 0,
   {| blocks := <[next_block h := replicate (Z.to_nat n) 0]> (blocks h);
      next_block := Pos.succ (next_block h) |}).

(** [realloc p n]: a new object of [n] bytes that starts with the bytes of the
    old one; the old object is deallocated. *)
Definition realloc (p : pointer) (n : Z) (h : Memory) : pointer * Memory :=
  match p with
  | Ptr b 0 =>
      let old := default [] (blocks h !! b) in
      (Ptr (next_block h) 0,
       {| blocks := <[next_block h :=
                        take (Z.to_nat n) (old ++ replicate (Z.to_nat n) 0)]>
                      (delete b (blocks h));
          next_block := Pos.succ (next_block h) |})
  | _ => malloc n h
  end.

(** Reading [n] bytes through a pointer: defined only inside a live block. *)
Definition load (h : Memory) (p : pointer) (n : Z) : option (list Z) :=
  match p with
  | nullptr => None
  | Ptr b o =>
      match blocks h !! b with
      | Some bytes =>
          if decide (0 ≤ o ∧ 0 ≤ n ∧ o + n ≤ Z.of_nat (length bytes))
          then Some (take (Z.to_nat n) (drop (Z.to_nat o) bytes))
          else None
      | None => None
      end
  end.

Definition valid_pointer (h : Memory) (p : pointer) (n : Z) : bool :=
  bool_decide (is_Some (load h p n)).

(** ** utils/custom_heap.hpp *)

Module CustomHeap.

Record custom_heap : Type := {
  data_ : pointer;
  size_ : Z;
  capacity_ : Z
}.

(** [custom_heap ()] *)
Definition empty : custom_heap :=
  {| data_ := nullptr; size_ := 0; capacity_ := 0 |}.

(** [void* allocate(size_type size)].  [malloc] and [realloc] are taken to
    succeed, so the two [runtime_error] branches are not reached. *)
Definition allocate (size : Z) (h : custom_heap) (mem : Memory)
  : pointer * custom_heap * Memory :=
  if decide (wrap64 (size_ h + size) ≤ capacity_ h) then
    let toReturn := ptr_add (data_ h) (size_ h) in
    (toReturn,
     {| data_ := data_ h; size_ := wrap64 (size_ h + size);
        capacity_ := capacity_ h |},
     mem)
  else if decide (data_ h = nullptr) then
    let '(p, mem') := malloc size mem in
    (p, {| data_ := p; size_ := size; capacity_ := size |}, mem')
  else
    let new_capacity := wrap64 (capacity_ h * 2) in
    let new_capacity :=
      if decide (wrap64 (size_ h + size) > new_capacity)
      then wrap64 (size_ h + size) else new_capacity in
    let '(p, mem') := realloc (data_ h) new_capacity mem in
    let toReturn := ptr_add p (size_ h) in
    (toReturn,
     {| data_ := p; size_ := wrap64 (size_ h + size);
        capacity_ := new_capacity |},
     mem').

(** [void clear()] *)
Definition clear (h : custom_heap) : custom_heap :=
  {| data_ := data_ h; size_ := 0; capacity_ := capacity_ h |}.

End CustomHeap.

Abbreviation custom_heap := CustomHeap.custom_heap.

(** ** interaction.hpp *)

Module Interaction.

(** The fields of [class Interaction] that the master reads. *)
Record Interaction : Type := {
  type_ : InteractionType;
  sender_id_ : AgentId;
  sender_type_ : AgentType;
  recipient_id_ : AgentId;
  recipient_type_ : AgentType
}.

End Interaction.

Abbreviation Interaction := Interaction.Interaction.

(** ** agent.hpp *)

Module Agent.

(** An agent: its identifiers, its attributes (attribute identifier to the
    bytes of the value), the critical attributes found modified by the last
    [CheckModifiedCriticalAttributes], and the interactions handed to it by
    [ReceiveMessage]. *)
Record Agent : Type := {
  id_ : AgentId;
  type_ : AgentType;
  attributes : gmap Attribute (list Z);
  updated_critical_attributes_ : list Attribute;
  received : list Interaction
}.

(** [ReceiveMessage(inter)]: stores the interaction. *)
Definition ReceiveMessage (inter : Interaction) (a : Agent) : Agent :=
  {| id_ := id_ a; type_ := type_ a; attributes := attributes a;
     updated_critical_attributes_ := updated_critical_attributes_ a;
     received := received a ++ [inter] |}.

(** [updated_critical_attributes_.clear()] *)
Definition clear_updated (a : Agent) : Agent :=
  {| id_ := id_ a; type_ := type_ a; attributes := attributes a;
     updated_critical_attributes_ := [];
     received := received a |}.

(** Overwriting the first bytes of attribute [attr] with [v], as a [memcpy] or
    an [MPI_Recv] through [GetPointerToAttribute(attr)] does. *)
Definition write_attribute (attr : Attribute) (v : list Z) (a : Agent) : Agent :=
  {| id_ := id_ a; type_ := type_ a;
     attributes :=
       alter (fun old => v ++ drop (length v) old) attr (attributes a);
     updated_critical_attributes_ := updated_critical_attributes_ a;
     received := received a |}.

End Agent.

Abbreviation Agent := Agent.Agent.

(** ** master.hpp: the data members of [class Master] *)

Inductive Order : Type :=
| KILL_SIMULATION
| RUN_SIMULATION
| CHANGE_PERIOD
| ADD_AGENTS
| MODIFY_ATTRIBUTE
| EXPORT_SIMULATION
| IDLE.

Inductive Window : Type := public_window_ | critical_window_.

(** The methods that [RunTimeStep] calls besides [Synchronize]. *)
Inductive Method : Type :=
| UpdateAllPublicAttributes_
| SendReceiveInteractions_
| DistributeReceivedInteractions_
| RunBehaviors_.

#[global] Instance Method_eq_dec : EqDecision Method.
Proof. solve_decision. Defined.

(** What travels in a point-to-point message of [ModifyAttribute]: an
    attribute identifier ([MPI_UINT64_T], eight bytes) or the bytes of a
    value. *)
Inductive Payload : Type :=
| uint64_payload (v : Z)
| bytes_payload (v : list Z).

Definition payload_size (p : Payload) : Z :=
  match p with
  | uint64_payload _ => 8
  | bytes_payload v => Z.of_nat (length v)
  end.

(** What a master does to the outside world: its MPI calls, what it prints on
    [std::cerr], and the calls into the generated agent code that copy
    attribute records.  [Enter f] marks the entry into method [f]. *)
Inductive Event : Type :=
| Enter (f : Method)
| MPI_Barrier
| MPI_Bcast_order (o : Order)
| MPI_Bcast_uint64 (v : Z)
| MPI_Send (buf : Payload) (dest : MasterId)
| MPI_Bcast_critical_struct (agent : AgentGlobalId) (dt : MPI_Datatype)
                            (root : MasterId)
| MPI_Win_allocate (w : Window) (bytes : Z)
| MPI_Win_lock_all (w : Window)
| MPI_Win_unlock_all (w : Window)
| MPI_Get (recipient : AgentGlobalId) (attr : Attribute)
          (storage_location : pointer) (dt : MPI_Datatype)
          (target : MasterId) (target_disp : Z)
| MPI_Put (attr : Attribute) (dt : MPI_Datatype)
          (target : MasterId) (target_disp : Z)
| MPI_Alltoall (nb_messages_to_send : list Z)
| MPI_Isend (inter : Interaction) (dt : MPI_Datatype) (dest : MasterId)
| MPI_Irecv (dt : MPI_Datatype) (source : MasterId)
| MPI_Waitall (n : Z)
| CopyPublicAttributes (agent : AgentGlobalId) (begin : pointer)
| CopyCriticalAttributes (agent : AgentGlobalId) (begin : pointer)
| cerr (msg : string).

(** The tables filled once by the generated [Create...] functions in the
    constructor and never written afterwards. *)
Record Catalog : Type := {
  nb_types_ : AgentType;
  nb_interactions_ : InteractionType;
  interactions_MPI_types_ : gmap InteractionType MPI_Datatype;
  critical_structs_MPI_types_ : gmap AgentType MPI_Datatype;
  critical_attributes_ : gset (AgentType * Attribute);
  attributes_sizes_ : gmap (AgentType * Attribute) Z;
  attributes_MPI_types_ : gmap (AgentType * Attribute) MPI_Datatype;
  public_attributes_offsets_ : gmap (AgentType * Attribute) Z;
  public_attributes_struct_sizes_ : gmap AgentType Z;
  critical_attributes_offsets_ : gmap (AgentType * Attribute) Z;
  critical_attributes_struct_sizes_ : gmap AgentType Z;
  agent_type_to_string_ : gmap AgentType AgentName
}.

(** The members written by [InitializeAgents] and [InitializeWindows]. *)
Record Layout : Type := {
  maximal_ids_ : list AgentId;
  agent_ids_by_types_ : list (gset AgentId);
  masters_ : gmap AgentGlobalId MasterId;
  public_agents_offsets_ : gmap AgentGlobalId Z;
  critical_agents_offsets_ : gmap AgentGlobalId Z;
  PublicWindowsDescription : list WindowDescription;
  CriticalWindowDescription : WindowDescription;
  begin_public_window_ : pointer;
  begin_critical_window_ : pointer
}.

(** [class Master].  [agents_] holds the agents of all the agent handlers of
    this master, keyed by global identifier.  The last two fields are not data
    members: they are the C heap of the process and the effects it has had. *)
Record Master : Type := {
  step_ : Z;
  order_ : Order;
  period_ : Z;
  id_ : MasterId;
  nb_masters_ : MasterId;
  catalog : Catalog;
  layout : Layout;
  agents_ : gmap AgentGlobalId Agent;
  received_interactions_ : list Interaction;
  interactions_to_send_ : list (list Interaction);
  received_public_attributes_ : gmap (AgentGlobalId * Attribute) pointer;
  stored_public_attributes_ : custom_heap;
  memory : Memory;
  trace : list Event
}.

(** Assignments to one data member. *)
Definition set_step_ (v : Z) (m : Master) : Master :=
  {| step_ := v; order_ := order_ m; period_ := period_ m; id_ := id_ m;
     nb_masters_ := nb_masters_ m; catalog := catalog m; layout := layout m;
     agents_ := agents_ m; received_interactions_ := received_interactions_ m;
     interactions_to_send_ := interactions_to_send_ m;
     received_public_attributes_ := received_public_attributes_ m;
     stored_public_attributes_ := stored_public_attributes_ m;
     memory := memory m; trace := trace m |}.

Definition set_order_ (v : Order) (m : Master) : Master :=
  {| step_ := step_ m; order_ := v; period_ := period_ m; id_ := id_ m;
     nb_masters_ := nb_masters_ m; catalog := catalog m; layout := layout m;
     agents_ := agents_ m; received_interactions_ := received_interactions_ m;
     interactions_to_send_ := interactions_to_send_ m;
     received_public_attributes_ := received_public_attributes_ m;
     stored_public_attributes_ := stored_public_attributes_ m;
     memory := memory m; trace := trace m |}.

Definition set_period_ (v : Z) (m : Master) : Master :=
  {| step_ := step_ m; order_ := order_ m; period_ := v; id_ := id_ m;
     nb_masters_ := nb_masters_ m; catalog := catalog m; layout := layout m;
     agents_ := agents_ m; received_interactions_ := received_interactions_ m;
     interactions_to_send_ := interactions_to_send_ m;
     received_public_attributes_ := received_public_attributes_ m;
     stored_public_attributes_ := stored_public_attributes_ m;
     memory := memory m; trace := trace m |}.

Definition set_layout (v : Layout) (m : Master) : Master :=
  {| step_ := step_ m; order_ := order_ m; period_ := period_ m; id_ := id_ m;
     nb_masters_ := nb_masters_ m; catalog := catalog m; layout := v;
     agents_ := agents_ m; received_interactions_ := received_interactions_ m;
     interactions_to_send_ := interactions_to_send_ m;
     received_public_attributes_ := received_public_attributes_ m;
     stored_public_attributes_ := stored_public_attributes_ m;
     memory := memory m; trace := trace m |}.

Definition set_agents_ (v : gmap AgentGlobalId Agent) (m : Master) : Master :=
  {| step_ := step_ m; order_ := order_ m; period_ := period_ m; id_ := id_ m;
     nb_masters_ := nb_masters_ m; catalog := catalog m; layout := layout m;
     agents_ := v; received_interactions_ := received_interactions_ m;
     interactions_to_send_ := interactions_to_send_ m;
     received_public_attributes_ := received_public_attributes_ m;
     stored_public_attributes_ := stored_public_attributes_ m;
     memory := memory m; trace := trace m |}.

Definition set_received_interactions_ (v : list Interaction) (m : Master)
  : Master :=
  {| step_ := step_ m; order_ := order_ m; period_ := period_ m; id_ := id_ m;
     nb_masters_ := nb_masters_ m; catalog := catalog m; layout := layout m;
     agents_ := agents_ m; received_interactions_ := v;
     interactions_to_send_ := interactions_to_send_ m;
     received_public_attributes_ := received_public_attributes_ m;
     stored_public_attributes_ := stored_public_attributes_ m;
     memory := memory m; trace := trace m |}.

Definition set_interactions_to_send_ (v : list (list Interaction)) (m : Master)
  : Master :=
  {| step_ := step_ m; order_ := order_ m; period_ := period_ m; id_ := id_ m;
     nb_masters_ := nb_masters_ m; catalog := catalog m; layout := layout m;
     agents_ := agents_ m; received_interactions_ := received_interactions_ m;
     interactions_to_send_ := v;
     received_public_attributes_ := received_public_attributes_ m;
     stored_public_attributes_ := stored_public_attributes_ m;
     memory := memory m; trace := trace m |}.

(** The attribute-read cache, its arena and the heap change together. *)
Definition set_read_cache (c : gmap (AgentGlobalId * Attribute) pointer)
    (h : custom_heap) (mem : Memory) (m : Master) : Master :=
  {| step_ := step_ m; order_ := order_ m; period_ := period_ m; id_ := id_ m;
     nb_masters_ := nb_masters_ m; catalog := catalog m; layout := layout m;
     agents_ := agents_ m; received_interactions_ := received_interactions_ m;
     interactions_to_send_ := interactions_to_send_ m;
     received_public_attributes_ := c;
     stored_public_attributes_ := h;
     memory := mem; trace := trace m |}.

(** Appending one effect to the trace. *)
Definition log (e : Event) (m : Master) : Master :=
  {| step_ := step_ m; order_ := order_ m; period_ := period_ m; id_ := id_ m;
     nb_masters_ := nb_masters_ m; catalog := catalog m; layout := layout m;
     agents_ := agents_ m; received_interactions_ := received_interactions_ m;
     interactions_to_send_ := interactions_to_send_ m;
     received_public_attributes_ := received_public_attributes_ m;
     stored_public_attributes_ := stored_public_attributes_ m;
     memory := memory m; trace := trace m ++ [e] |}.

(** A loop whose body can throw. *)
Fixpoint foldM {A B} (f : B → A → result B) (l : list A) (b : B) : result B :=
  match l with
  | [] => Ok b
  | x :: l' => b' ← f b x; foldM f l' b'
  end.

(** ** master.cpp: identifiers and catalog queries *)

(** [Time Master::TimeStep()] *)
Definition TimeStep (m : Master) : Z := step_ m.

(** [bool Master::DoesAgentExist(AgentId id, AgentType type)] *)
Definition DoesAgentExist (m : Master) (id : AgentId) (type : AgentType)
  : result bool :=
  ids ← vector_at (agent_ids_by_types_ (layout m)) type;
  Ok (bool_decide (id ∈ ids)).

(** [AgentGlobalId Master::LocalToGlobalId(AgentId id, AgentType type)] *)
Definition LocalToGlobalId (m : Master) (id : AgentId) (type : AgentType)
  : AgentGlobalId :=
  wrap64 (nb_types_ (catalog m) * id + type).

(** [AgentId Master::GlobalToLocalId(AgentGlobalId id)].  With no agent type
    the division of the source is undefined; [Z] gives 0 here, and [id] for
    the remainder below. *)
Definition GlobalToLocalId (m : Master) (id : AgentGlobalId) : AgentId :=
  id / nb_types_ (catalog m).

(** [AgentType Master::GlobalToLocalType(AgentGlobalId id)] *)
Definition GlobalToLocalType (m : Master) (id : AgentGlobalId) : AgentType :=
  id `mod` nb_types_ (catalog m).

(** [void* Master::AgentPublicStructPointer(AgentId id, AgentType type)] *)
Definition AgentPublicStructPointer (m : Master) (id : AgentId)
    (type : AgentType) : result pointer :=
  let global_id := LocalToGlobalId m id type in
  off ← map_at (public_agents_offsets_ (layout m)) global_id;
  Ok (ptr_add (begin_public_window_ (layout m)) off).

(** [size_t Master::PublicTargetDisp(AgentGlobalId id, Attribute attr)] *)
Definition PublicTargetDisp (m : Master) (id : AgentGlobalId) (attr : Attribute)
  : result Z :=
  let type := GlobalToLocalType m id in
  agent_off ← map_at (public_agents_offsets_ (layout m)) id;
  attr_off ← map_at (public_attributes_offsets_ (catalog m)) (type, attr);
  Ok (wrap64 (agent_off + attr_off)).

(** [bool Master::IsCritical(Attribute attr, AgentType type)] *)
Definition IsCritical (m : Master) (attr : Attribute) (type : AgentType) : bool :=
  bool_decide ((type, attr) ∈ critical_attributes_ (catalog m)).

(** [bool Master::IsAttributeSendable(Attribute attr, AgentType type)]: the
    key handed to [find] is [std::make_pair(attr, type)]. *)
Definition IsAttributeSendable (m : Master) (attr : Attribute)
    (type : AgentType) : bool :=
  bool_decide (is_Some (attributes_sizes_ (catalog m) !! (attr, type))).

(** [bool Master::HasReceivedAttribute(attr, id, location)]: [Some location]
    stands for [true] with [location] assigned. *)
Definition HasReceivedAttribute (m : Master) (attr : Attribute)
    (id : AgentGlobalId) : option pointer :=
  received_public_attributes_ m !! (id, attr).

(** ** master.cpp: the attribute-read path *)

(** [void* Master::GetCriticalAttribute(Attribute attr, AgentGlobalId recipient)] *)
Definition GetCriticalAttribute (m : Master) (attr : Attribute)
    (recipient : AgentGlobalId) : result pointer :=
  let p := (GlobalToLocalType m recipient, attr) in
  agent_off ← map_at (critical_agents_offsets_ (layout m)) recipient;
  attr_off ← map_at (critical_attributes_offsets_ (catalog m)) p;
  let target_disp := wrap64 (agent_off + attr_off) in
  Ok (ptr_add (begin_critical_window_ (layout m)) target_disp).

(** [void* Master::GetPublicAttribute(Attribute attr, AgentGlobalId recipient)] *)
Definition GetPublicAttribute (m : Master) (attr : Attribute)
    (recipient : AgentGlobalId) : result (pointer * Master) :=
  let agent_type := GlobalToLocalType m recipient in
  let p_type := (agent_type, attr) in
  let p_id := (recipient, attr) in
  match HasReceivedAttribute m attr recipient with
  | Some location => Ok (location, m)
  | None =>
      master_recipient_id ← map_at (masters_ (layout m)) recipient;
      MPI_attr_type ← map_at (attributes_MPI_types_ (catalog m)) p_type;
      target_disp ← PublicTargetDisp m recipient attr;
      sz ← map_at (attributes_sizes_ (catalog m)) p_type;
      let '(storage_location, heap, mem) :=
        CustomHeap.allocate sz (stored_public_attributes_ m) (memory m) in
      let m1 :=
        set_read_cache
          (<[p_id := storage_location]> (received_public_attributes_ m))
          heap mem m in
      let m2 :=
        log (MPI_Get recipient attr storage_location MPI_attr_type
               master_recipient_id target_disp) m1 in
      Ok (storage_location, m2)
  end.

(** [void* Master::GetAttribute(Attribute attr, AgentId recipient_id,
    AgentType recipient_type)] *)
Definition GetAttribute (m : Master) (attr : Attribute)
    (recipient_id : AgentId) (recipient_type : AgentType)
  : result (pointer * Master) :=
  let id := LocalToGlobalId m recipient_id recipient_type in
  exists_ ← DoesAgentExist m recipient_id recipient_type;
  if negb exists_ then
    name ← map_at (agent_type_to_string_ (catalog m)) recipient_type;
    Throw (AgentNotFound recipient_id name)
  else if IsCritical m attr recipient_type then
    location ← GetCriticalAttribute m attr id;
    Ok (location, m)
  else
    GetPublicAttribute m attr id.

(** [void Master::UpdateCriticalAttribute(Attribute attr, AgentId agent_id,
    AgentType agent_type, void* location)]: [agent_id] is used as it is in
    [GlobalToLocalType] and as the key of [critical_agents_offsets_]. *)
Definition UpdateCriticalAttribute (m : Master) (attr : Attribute)
    (agent_id : AgentId) (agent_type : AgentType) : result Master :=
  let type := GlobalToLocalType m agent_id in
  let p := (type, attr) in
  agent_off ← map_at (critical_agents_offsets_ (layout m)) agent_id;
  attr_off ← map_at (critical_attributes_offsets_ (catalog m)) p;
  let target_disp := wrap64 (agent_off + attr_off) in
  attribute_type ← map_at (attributes_MPI_types_ (catalog m)) p;
  Ok (foldl (fun m' id => log (MPI_Put attr attribute_type id target_disp) m')
          m (seqZ 0 (nb_masters_ m))).

(** ** master.cpp: emitting an interaction *)

Definition recipient_warning (sender_id : AgentId) (sender_type : AgentName)
    (recipient_id : AgentId) (recipient_type : AgentName) : string :=
  "Warning: Agent " +:+ pretty sender_id +:+ " of type " +:+ sender_type
  +:+ " sent an interaction to an agent which does not exist. Agent "
  +:+ pretty recipient_id +:+ " of type " +:+ recipient_type
  +:+ " can not be found in the simulation. The interaction is ignored.".

(** [void Master::PushInteraction(std::unique_ptr<Interaction> &&inter)] *)
Definition PushInteraction (m : Master) (inter : Interaction) : result Master :=
  let type := Interaction.type_ inter in
  let recipient_id :=
    LocalToGlobalId m (Interaction.recipient_id_ inter)
      (Interaction.recipient_type_ inter) in
  exists_ ← DoesAgentExist m (Interaction.recipient_id_ inter)
              (Interaction.recipient_type_ inter);
  if (exists_ : bool) then
    recipient_master ← map_at (masters_ (layout m)) recipient_id;
    let i := wrap64 (recipient_master * nb_interactions_ (catalog m) + type) in
    bucket ← vector_at (interactions_to_send_ m) i;
    Ok (set_interactions_to_send_
            (<[Z.to_nat i := bucket ++ [inter]]> (interactions_to_send_ m)) m)
  else
    sender_name ← map_at (agent_type_to_string_ (catalog m))
                    (Interaction.sender_type_ inter);
    recipient_name ← map_at (agent_type_to_string_ (catalog m))
                       (Interaction.recipient_type_ inter);
    Ok (log (cerr (recipient_warning (Interaction.sender_id_ inter) sender_name
                       (Interaction.recipient_id_ inter) recipient_name)) m).

(** ** master.cpp and agent_handler.cpp: the phases of a time step *)

(** What the user behaviours ask of their master. *)
Inductive Action : Type :=
| AskAttribute (attr : Attribute) (recipient_id : AgentId)
               (recipient_type : AgentType)
| SendMessage (inter : Interaction).

(** What one time step receives from outside the master code: the
    interactions that the peers send in the exchange (by source master and
    interaction type); the calls that the behaviours of the local agents make,
    in the order in which they reach the master; the attribute values that a
    behaviour leaves in its agent; and what the generated
    [CheckModifiedCriticalAttributes] then reports. *)
Record StepEnv : Type := {
  incoming : MasterId → InteractionType → list Interaction;
  script : list Action;
  behavior_writes : Agent → gmap Attribute (list Z);
  modified_critical : Agent → list Attribute
}.

(** [void Master::Synchronize()] *)
Definition Synchronize (m : Master) : Master := log MPI_Barrier m.

(** [void Master::DistributeReceivedInteractions()] *)
Definition DistributeReceivedInteractions (m : Master) : result Master :=
  m1 ← foldM
         (fun m' inter =>
            let agent :=
              LocalToGlobalId m' (Interaction.recipient_id_ inter)
                (Interaction.recipient_type_ inter) in
            a ← map_at (agents_ m') agent;
            Ok (set_agents_
                  (<[agent := Agent.ReceiveMessage inter a]> (agents_ m')) m'))
         (received_interactions_ m)
         (log (Enter DistributeReceivedInteractions_) m);
  Ok (set_received_interactions_ [] m1).

(** One call of a behaviour into its master ([Agent::AskAttribute],
    [Agent::SendMessage]). *)
Definition run_action (m : Master) (a : Action) : result Master :=
  match a with
  | AskAttribute attr recipient_id recipient_type =>
      '(_, m') ← GetAttribute m attr recipient_id recipient_type;
      Ok m'
  | SendMessage inter => PushInteraction m inter
  end.

(** The calls of the behaviours, up to the first exception that leaves one of
    them (the state is the one in which it was raised). *)
Fixpoint run_script (m : Master) (s : list Action) : Master * option exn :=
  match s with
  | [] => (m, None)
  | a :: s' =>
      match run_action m a with
      | Ok m' => run_script m' s'
      | Throw e => (m, Some e)
      end
  end.

(** [void AgentHandler::RunBehaviors()], after the behaviours have made their
    calls: for every agent, the values written by [Behavior], then
    [ResetMessages] and [CheckModifiedCriticalAttributes]. *)
Definition AgentHandler_RunBehaviors_end (env : StepEnv) (a : Agent) : Agent :=
  {| Agent.id_ := Agent.id_ a; Agent.type_ := Agent.type_ a;
     Agent.attributes := behavior_writes env a;
     Agent.updated_critical_attributes_ := modified_critical env a;
     Agent.received := [] |}.

(** [void Master::RunBehaviors()] up to the start of the handler threads: the
    two [clear()] and [MPI_Win_lock_all]. *)
Definition RunBehaviors_start (m : Master) : Master :=
  let m1 :=
    set_read_cache ∅ (CustomHeap.clear (stored_public_attributes_ m))
      (memory m) (log (Enter RunBehaviors_) m) in
  log (MPI_Win_lock_all public_window_) m1.

(** [void Master::RunBehaviors()].  The handler threads are run one after the
    other; an exception that leaves a behaviour leaves its thread. *)
Definition RunBehaviors (m : Master) (env : StepEnv) : result Master :=
  match run_script (RunBehaviors_start m) (script env) with
  | (m3, None) =>
      let m4 := set_agents_ (AgentHandler_RunBehaviors_end env <$> agents_ m3) m3 in
      Ok (log (MPI_Win_unlock_all public_window_) m4)
  | (_, Some e) => Throw e
  end.

(** The body of the loop of [void AgentHandler::UpdateAllPublicAttributes()]
    for the agent stored under [ga.1]. *)
Definition AgentHandler_UpdateAllPublicAttributes_body (m : Master)
    (ga : AgentGlobalId * Agent) : result Master :=
  let a := ga.2 in
  begin ← AgentPublicStructPointer m (Agent.id_ a) (Agent.type_ a);
  let m1 := log (CopyPublicAttributes ga.1 begin) m in
  m2 ← foldM
         (fun m' attr =>
            UpdateCriticalAttribute m' attr (Agent.id_ a) (Agent.type_ a))
         (Agent.updated_critical_attributes_ a) m1;
  Ok (set_agents_ (<[ga.1 := Agent.clear_updated a]> (agents_ m2)) m2).

(** [void Master::UpdateAllPublicAttributes()], the handler threads run one
    after the other. *)
Definition UpdateAllPublicAttributes (m : Master) : result Master :=
  let m1 := log (MPI_Win_lock_all critical_window_)
              (log (Enter UpdateAllPublicAttributes_) m) in
  m2 ← foldM AgentHandler_UpdateAllPublicAttributes_body
         (map_to_list (agents_ m)) m1;
  Ok (log (MPI_Win_unlock_all critical_window_) m2).

(** [void Master::SendReceiveInteractions()] *)
Definition SendReceiveInteractions (m : Master)
    (incoming : MasterId → InteractionType → list Interaction)
  : result Master :=
  let nb_i := nb_interactions_ (catalog m) in
  let m0 := log (Enter SendReceiveInteractions_) m in
  nb_messages_to_send ←
    mapM (fun i => bucket ← vector_at (interactions_to_send_ m) i;
                   Ok (Z.of_nat (length bucket)))
         (seqZ 0 (wrap64 (nb_masters_ m * nb_i)));
  let total_to_send := foldr Z.add 0 nb_messages_to_send in
  let arriving :=
    i ← seqZ 0 (nb_masters_ m); j ← seqZ 0 nb_i; incoming i j in
  let total_to_receive := Z.of_nat (length arriving) in
  let m1 := log (MPI_Alltoall nb_messages_to_send) m0 in
  m2 ← foldM
         (fun m' i =>
            foldM
              (fun m'' j =>
                 bucket ← vector_at (interactions_to_send_ m)
                            (wrap64 (i * nb_i + j));
                 foldM
                   (fun m3 inter =>
                      dt ← map_at (interactions_MPI_types_ (catalog m)) j;
                      Ok (log (MPI_Isend inter dt i) m3))
                   bucket m'')
              (seqZ 0 nb_i) m')
         (seqZ 0 (nb_masters_ m)) m1;
  m3 ← foldM
         (fun m' i =>
            foldM
              (fun m'' j =>
                 foldM
                   (fun m3 _ =>
                      dt ← map_at (interactions_MPI_types_ (catalog m)) j;
                      Ok (log (MPI_Irecv dt i) m3))
                   (incoming i j) m'')
              (seqZ 0 nb_i) m')
         (seqZ 0 (nb_masters_ m)) m2;
  let m4 := log (MPI_Waitall (total_to_receive + total_to_send)) m3 in
  let m5 :=
    set_received_interactions_ (received_interactions_ m4 ++ arriving) m4 in
  Ok (set_interactions_to_send_ ((fun _ => []) <$> interactions_to_send_ m5) m5).

(** [void Master::RunTimeStep()] *)
Definition RunTimeStep (m : Master) (env : StepEnv) : result Master :=
  let m := set_step_ (wrap64 (step_ m + 1)) m in
  m ← UpdateAllPublicAttributes m;
  let m := Synchronize m in
  (* MetaEvolution(); is commented out in the source *)
  let m := Synchronize m in
  m ← SendReceiveInteractions m (incoming env);
  let m := Synchronize m in
  m ← DistributeReceivedInteractions m;
  let m := Synchronize m in
  m ← RunBehaviors m env;
  Ok (Synchronize m).

(** ** master.cpp: the control methods *)

(** The loop [for (Time t=0; t<period_; t++) RunTimeStep();], [n] iterations
    left, the next one being iteration [t]. *)
Fixpoint RunTimeSteps (n : nat) (t : nat) (env : nat → StepEnv) (m : Master)
  : result Master :=
  match n with
  | O => Ok m
  | S n' => m' ← RunTimeStep m (env t); RunTimeSteps n' (S t) env m'
  end.

(** [void Master::RunSimulation()] *)
Definition RunSimulation (m : Master) (env : nat → StepEnv) : result Master :=
  let m :=
    if decide (id_ m = 0)
    then log (MPI_Bcast_order RUN_SIMULATION) (set_order_ RUN_SIMULATION m)
    else m in
  RunTimeSteps (Z.to_nat (period_ m)) 0 env m.

(** [void Master::ChangePeriod(Time new_period)]; [from_root] is what the
    broadcast of [period_] delivers on a master other than 0. *)
Definition ChangePeriod (m : Master) (new_period : Z) (from_root : Z) : Master :=
  if decide (id_ m = 0) then
    let m := log (MPI_Bcast_order CHANGE_PERIOD) (set_order_ CHANGE_PERIOD m) in
    let m := set_period_ new_period m in
    log (MPI_Bcast_uint64 (period_ m)) m
  else
    set_period_ from_root m.

(** The result of a method that takes part in point-to-point communication:
    it returns, an exception leaves it, it waits for ever in [MPI_Recv], or it
    writes through a null pointer. *)
Inductive outcome (A : Type) : Type :=
| Returned (a : A)
| Raised (e : exn)
| Blocked
| Undefined.
Arguments Returned {A} a.
Arguments Raised {A} e.
Arguments Blocked {A}.
Arguments Undefined {A}.

#[global] Instance outcome_bind : MBind outcome := fun A B f r =>
  match r with
  | Returned a => f a
  | Raised e => Raised e
  | Blocked => Blocked
  | Undefined => Undefined
  end.

Definition lift {A} (r : result A) : outcome A :=
  match r with
  | Ok a => Returned a
  | Throw e => Raised e
  end.

(** [MPI_Recv] of one element of datatype [dt] from master 0: the first
    pending message, which must fit. *)
Definition MPI_Recv (dt : MPI_Datatype) (mailbox : list Payload)
  : outcome (Payload * list Payload) :=
  match mailbox with
  | [] => Blocked
  | msg :: mailbox' =>
      if decide (payload_size msg ≤ dt) then Returned (msg, mailbox')
      else Raised (runtime_error "MPI_ERR_TRUNCATE")
  end.

(** The checks that master 0 makes at the head of [ModifyAttribute]:
    [Returned (false, _)] when the method has returned after a message on
    [std::cerr], [Returned (true, _)] when it goes on (on master 0, after the
    order has been broadcast). *)
Definition ModifyAttribute_checks (m : Master) (attr : Attribute)
    (agent_id : AgentId) (agent_type : AgentType) : outcome (bool * Master) :=
  if decide (id_ m = 0) then
    if decide (nb_types_ (catalog m) ≤ agent_type) then
      Returned (false,
        log (cerr ("The agent type " +:+ pretty agent_type
                   +:+ " does not exist.")) m)
    else if negb (IsAttributeSendable m attr agent_type) then
      Returned (false,
        log (cerr "This attribute cannot be modified: it is not sendable.") m)
    else
      exists_ ← lift (DoesAgentExist m agent_id agent_type);
      if negb exists_ then
        name ← lift (map_at (agent_type_to_string_ (catalog m)) agent_type);
        Returned (false,
          log (cerr ("The agent " +:+ pretty agent_id +:+ "of type" +:+ name
                     +:+ " does not exist.")) m)
      else
        Returned (true,
          log (MPI_Bcast_order MODIFY_ATTRIBUTE)
            (set_order_ MODIFY_ATTRIBUTE m))
  else Returned (true, m).

(** [void Master::ModifyAttribute(Attribute attr, AgentId agent_id,
    AgentType agent_type, void* location)].  [location] is [None] for
    [nullptr]; [from_root] is what the broadcast of [recipient_global_id]
    delivers on a master other than 0, and [mailbox] the messages that master
    0 has sent to this master. *)
Definition ModifyAttribute (m : Master) (attr : Attribute) (agent_id : AgentId)
    (agent_type : AgentType) (location : option (list Z))
    (from_root : AgentGlobalId) (mailbox : list Payload) : outcome Master :=
  let recipient_global_id := LocalToGlobalId m agent_id agent_type in
  '(go_on, m) ← ModifyAttribute_checks m attr agent_id agent_type;
  if negb go_on then Returned m else
  let recipient_global_id :=
    if decide (id_ m = 0) then recipient_global_id else from_root in
  let m :=
    if decide (id_ m = 0) then log (MPI_Bcast_uint64 recipient_global_id) m
    else m in
  recipient_master ← lift (map_at (masters_ (layout m)) recipient_global_id);
  let p := (GlobalToLocalType m recipient_global_id, attr) in
  if decide (recipient_master ≠ 0) then
    if decide (id_ m = 0) then
      let m := log (MPI_Send (uint64_payload attr) recipient_master) m in
      dt ← lift (map_at (attributes_MPI_types_ (catalog m)) p);
      match location with
      | Some v =>
          Returned
            (log (MPI_Send (bytes_payload (take (Z.to_nat dt) v))
                    recipient_master) m)
      | None => Undefined
      end
    else
      dt ← lift (map_at (attributes_MPI_types_ (catalog m)) p);
      '(msg, mailbox) ← MPI_Recv dt mailbox;
      let attribute_to_modify :=
        match msg with
        | uint64_payload v => v
        | bytes_payload _ => attr
        end in
      a ← lift (map_at (agents_ m) recipient_global_id);
      dt ← lift (map_at (attributes_MPI_types_ (catalog m)) p);
      '(msg, _) ← MPI_Recv dt mailbox;
      match Agent.attributes a !! attribute_to_modify, msg with
      | Some _, bytes_payload v =>
          Returned
            (set_agents_
               (<[recipient_global_id :=
                    Agent.write_attribute attribute_to_modify v a]>
                  (agents_ m)) m)
      | _, _ => Undefined
      end
  else
    a ← lift (map_at (agents_ m) recipient_global_id);
    sz ← lift (map_at (attributes_sizes_ (catalog m)) p);
    match Agent.attributes a !! attr, location with
    | Some _, Some v =>
        Returned
          (set_agents_
             (<[recipient_global_id :=
                  Agent.write_attribute attr (take (Z.to_nat sz) v) a]>
                (agents_ m)) m)
    | _, _ => Undefined
    end.

(** ** master.cpp: window initialization *)

(** [std::vector::resize(n)] with value-initialized new elements. *)
Definition resize {A} (n : Z) (d : A) (v : list A) : list A :=
  take (Z.to_nat n) (v ++ replicate (Z.to_nat n) d).

(** [std::unordered_map::insert]: an existing entry is kept. *)
Definition map_insert_new {K V} `{Countable K} (k : K) (v : V) (m : gmap K V)
  : gmap K V :=
  match m !! k with
  | Some _ => m
  | None => <[k := v]> m
  end.

(** The body of the loop [for (auto &global_id : agent_ids)] of
    [InitializeWindows]. *)
Definition InitializeWindows_body (m : Master) (l : Layout)
    (global_id : AgentGlobalId) : result Layout :=
  let type := GlobalToLocalType m global_id in
  let id := GlobalToLocalId m global_id in
  ids ← vector_at (agent_ids_by_types_ l) type;
  let by_types := <[Z.to_nat type := {[id]} ∪ ids]> (agent_ids_by_types_ l) in
  bound ← vector_at (maximal_ids_ l) type;
  let maximal :=
    <[Z.to_nat type := Z.max bound (wrap64 (GlobalToLocalId m global_id + 1))]>
      (maximal_ids_ l) in
  master_id ← map_at (masters_ l) global_id;
  descr ← vector_at (PublicWindowsDescription l) master_id;
  let public_offsets :=
    map_insert_new global_id (used descr) (public_agents_offsets_ l) in
  let critical_offsets :=
    map_insert_new global_id (size (CriticalWindowDescription l))
      (critical_agents_offsets_ l) in
  public_size ← map_at (public_attributes_struct_sizes_ (catalog m)) type;
  let descrs :=
    <[Z.to_nat master_id :=
        {| size := size descr; used := wrap64 (used descr + public_size) |}]>
      (PublicWindowsDescription l) in
  critical_size ← map_at (critical_attributes_struct_sizes_ (catalog m)) type;
  Ok {| maximal_ids_ := maximal;
        agent_ids_by_types_ := by_types;
        masters_ := masters_ l;
        public_agents_offsets_ := public_offsets;
        critical_agents_offsets_ := critical_offsets;
        PublicWindowsDescription := descrs;
        CriticalWindowDescription :=
          {| size := wrap64 (size (CriticalWindowDescription l) + critical_size);
             used := used (CriticalWindowDescription l) |};
        begin_public_window_ := begin_public_window_ l;
        begin_critical_window_ := begin_critical_window_ l |}.

(** [InitializeWindows] from its first line to the end of the loop over the
    sorted identifiers.  The loop [for(auto x: PublicWindowsDescription)]
    assigns to copies and changes nothing. *)
Definition InitializeWindows_offsets (m : Master)
    (agent_ids : list AgentGlobalId) : result Layout :=
  let l := layout m in
  let sorted := merge_sort Z.le agent_ids in
  let l0 :=
    {| maximal_ids_ := replicate (Z.to_nat (nb_types_ (catalog m))) 0;
       agent_ids_by_types_ :=
         resize (nb_types_ (catalog m)) ∅ (agent_ids_by_types_ l);
       masters_ := masters_ l;
       public_agents_offsets_ := public_agents_offsets_ l;
       critical_agents_offsets_ := critical_agents_offsets_ l;
       PublicWindowsDescription :=
         resize (nb_masters_ m) {| size := 0; used := 0 |}
           (PublicWindowsDescription l);
       CriticalWindowDescription :=
         {| size := 0; used := used (CriticalWindowDescription l) |};
       begin_public_window_ := begin_public_window_ l;
       begin_critical_window_ := begin_critical_window_ l |} in
  foldM (InitializeWindows_body m) sorted l0.

(** [void Master::FillWindows(std::vector<AgentGlobalId> &agent_ids)] *)
Definition FillWindows (m : Master) (agent_ids : list AgentGlobalId)
  : result Master :=
  foldM
    (fun m' global_id =>
       owner ← map_at (masters_ (layout m')) global_id;
       m1 ← (if decide (owner = id_ m') then
               _ ← map_at (agents_ m') global_id;
               public_off ← map_at (public_agents_offsets_ (layout m')) global_id;
               critical_off ← map_at (critical_agents_offsets_ (layout m')) global_id;
               Ok (log (CopyCriticalAttributes global_id
                          (ptr_add (begin_critical_window_ (layout m')) critical_off))
                     (log (CopyPublicAttributes global_id
                             (ptr_add (begin_public_window_ (layout m')) public_off))
                        m'))
             else Ok m');
       match critical_structs_MPI_types_ (catalog m1)
               !! GlobalToLocalType m1 global_id with
       | Some dt =>
           _ ← map_at (critical_agents_offsets_ (layout m1)) global_id;
           root ← map_at (masters_ (layout m1)) global_id;
           Ok (log (MPI_Bcast_critical_struct global_id dt root) m1)
       | None => Ok m1
       end)
    agent_ids m.

(** [void Master::InitializeWindows(std::vector<AgentGlobalId> &agent_ids)] *)
Definition InitializeWindows (m : Master) (agent_ids : list AgentGlobalId)
  : result Master :=
  l ← InitializeWindows_offsets m agent_ids;
  let max_public_used :=
    foldl (fun acc x => Z.max acc (used x)) 0 (PublicWindowsDescription l) in
  let descrs :=
    (fun x => {| size := wrap64 (2 * max_public_used); used := used x |})
      <$> PublicWindowsDescription l in
  let '(public_begin, mem1) := malloc (wrap64 (2 * max_public_used)) (memory m) in
  let '(critical_begin, mem2) :=
    malloc (wrap64 (2 * size (CriticalWindowDescription l))) mem1 in
  let l' :=
    {| maximal_ids_ := maximal_ids_ l;
       agent_ids_by_types_ := agent_ids_by_types_ l;
       masters_ := masters_ l;
       public_agents_offsets_ := public_agents_offsets_ l;
       critical_agents_offsets_ := critical_agents_offsets_ l;
       PublicWindowsDescription := descrs;
       CriticalWindowDescription := CriticalWindowDescription l;
       begin_public_window_ := public_begin;
       begin_critical_window_ := critical_begin |} in
  let m1 :=
    set_read_cache (received_public_attributes_ m)
      (stored_public_attributes_ m) mem2 (set_layout l' m) in
  let m2 :=
    log (MPI_Win_allocate critical_window_
           (wrap64 (2 * size (CriticalWindowDescription l))))
      (log (MPI_Win_allocate public_window_ (wrap64 (2 * max_public_used))) m1) in
  FillWindows m2 (merge_sort Z.le agent_ids).

(** ** user_interface.cpp: the commands [run] and [set_period] *)

Module UserInterface.

Inductive Control : Type := IDLE | INIT | RUN | CHANGE_NB_THREADS | EXIT.

(** [error_init], without its final newline. *)
Definition error_init : string :=
  "No simulation has been initiated. Execute first a 'init'.".

(** The variables that [Parse] reads and writes: [control], [run],
    [is_alive], the master of the process (dereferenced only when [is_alive]
    holds), and what was printed on [std::cerr]. *)
Record State : Type := {
  control : Control;
  run : bool;
  is_alive : bool;
  master : Master;
  printed : list string
}.

(** The two commands modelled.  For [run], [n_steps] is [Some n] when
    [input >> n_steps] reads the [int] [n] and [None] when it fails; for
    [set_period], [new_period] is the [Time] read by [input >> new_period]. *)
Inductive Command : Type :=
| run_command (n_steps : option Z)
| set_period_command (new_period : Z).

(** The loop [for (int k = 0; k<n_steps; k++) master->RunSimulation();] *)
Fixpoint RunSimulations (n : nat) (k : nat) (env : nat → nat → StepEnv)
    (m : Master) : result Master :=
  match n with
  | O => Ok m
  | S n' => m' ← RunSimulation m (env k); RunSimulations n' (S k) env m'
  end.

(** [void Parse(...)] on these two commands; [env k t] is the environment of
    time step [t] of the [k]-th call of [RunSimulation]. *)
Definition Parse (cmd : Command) (env : nat → nat → StepEnv) (s : State)
  : result State :=
  match cmd with
  | run_command n_steps =>
      if is_alive s then
        match n_steps with
        | Some n =>
            m ← RunSimulations (Z.to_nat n) 0 env (master s);
            Ok {| control := RUN; run := run s; is_alive := is_alive s;
                  master := m; printed := printed s |}
        | None =>
            Ok {| control := RUN; run := true; is_alive := is_alive s;
                  master := master s; printed := printed s |}
        end
      else
        Ok {| control := control s; run := run s; is_alive := is_alive s;
              master := master s; printed := printed s ++ [error_init] |}
  | set_period_command new_period =>
      if is_alive s then
        Ok {| control := control s; run := run s; is_alive := is_alive s;
              master := ChangePeriod (master s) new_period new_period;
              printed := printed s |}
      else Ok s
  end.

End UserInterface.

(** ** Well-formed masters and environments

    The conditions under which no [at] of a time step throws.  They speak of
    the members that a time step leaves alone (the catalog, the layout, the
    identifiers of the local agents, the number of outbox buckets). *)

(** The interaction is addressed to an agent held by this master. *)
Definition local_recipient (m : Master) (inter : Interaction) : Prop :=
  is_Some (agents_ m !! LocalToGlobalId m (Interaction.recipient_id_ inter)
                          (Interaction.recipient_type_ inter)).

(** The three lookups of [UpdateCriticalAttribute(attr, agent_id, _, _)]
    succeed. *)
Definition critical_update_ok (m : Master) (agent_id : AgentId)
    (attr : Attribute) : Prop :=
  is_Some (critical_agents_offsets_ (layout m) !! agent_id) ∧
  is_Some (critical_attributes_offsets_ (catalog m)
             !! (GlobalToLocalType m agent_id, attr)) ∧
  is_Some (attributes_MPI_types_ (catalog m)
             !! (GlobalToLocalType m agent_id, attr)).

(** The lookups of [GetPublicAttribute(attr, g)] succeed. *)
Definition public_read_ok (m : Master) (g : AgentGlobalId) (attr : Attribute)
  : Prop :=
  is_Some (masters_ (layout m) !! g) ∧
  is_Some (attributes_MPI_types_ (catalog m) !! (GlobalToLocalType m g, attr)) ∧
  is_Some (public_agents_offsets_ (layout m) !! g) ∧
  is_Some (public_attributes_offsets_ (catalog m) !! (GlobalToLocalType m g, attr)) ∧
  is_Some (attributes_sizes_ (catalog m) !! (GlobalToLocalType m g, attr)).

(** The lookups of [GetCriticalAttribute(attr, g)] succeed. *)
Definition critical_read_ok (m : Master) (g : AgentGlobalId) (attr : Attribute)
  : Prop :=
  is_Some (critical_agents_offsets_ (layout m) !! g) ∧
  is_Some (critical_attributes_offsets_ (catalog m)
             !! (GlobalToLocalType m g, attr)).

(** The agent [(id, type)] is in the simulation: [type] is an agent type and
    [id] is among the identifiers recorded for it. *)
Definition agent_exists (m : Master) (id : AgentId) (type : AgentType) : Prop :=
  0 ≤ type ∧
  ∃ ids, agent_ids_by_types_ (layout m) !! Z.to_nat type = Some ids ∧ id ∈ ids.

(** A call of a behaviour that raises nothing: the attribute of an existing
    agent that the catalog and the layout know; an interaction to an existing
    agent whose bucket exists, or to an absent agent of a declared type. *)
Definition action_ok (m : Master) (a : Action) : Prop :=
  match a with
  | AskAttribute attr id type =>
      agent_exists m id type ∧
      if IsCritical m attr type
      then critical_read_ok m (LocalToGlobalId m id type) attr
      else public_read_ok m (LocalToGlobalId m id type) attr
  | SendMessage inter =>
      let rid := Interaction.recipient_id_ inter in
      let rtype := Interaction.recipient_type_ inter in
      0 ≤ rtype ∧
      ∃ ids, agent_ids_by_types_ (layout m) !! Z.to_nat rtype = Some ids ∧
        if bool_decide (rid ∈ ids) then
          ∃ owner, masters_ (layout m) !! LocalToGlobalId m rid rtype = Some owner ∧
            0 ≤ owner < nb_masters_ m ∧
            0 ≤ Interaction.type_ inter < nb_interactions_ (catalog m)
        else
          is_Some (agent_type_to_string_ (catalog m)
                     !! Interaction.sender_type_ inter) ∧
          is_Some (agent_type_to_string_ (catalog m) !! rtype)
  end.

Record well_formed (m : Master) : Prop := {
  wf_masters : 0 ≤ nb_masters_ m;
  wf_interactions : 0 ≤ nb_interactions_ (catalog m);
  wf_buckets_64 : nb_masters_ m * nb_interactions_ (catalog m) < 2 ^ 64;
  wf_buckets :
    Z.of_nat (length (interactions_to_send_ m))
    = nb_masters_ m * nb_interactions_ (catalog m);
  wf_interaction_types :
    ∀ j, 0 ≤ j < nb_interactions_ (catalog m) →
         is_Some (interactions_MPI_types_ (catalog m) !! j);
  wf_public_offsets :
    map_Forall
      (fun _ a =>
         is_Some (public_agents_offsets_ (layout m)
                    !! LocalToGlobalId m (Agent.id_ a) (Agent.type_ a)))
      (agents_ m);
  wf_updated :
    map_Forall
      (fun _ a =>
         Forall (critical_update_ok m (Agent.id_ a))
           (Agent.updated_critical_attributes_ a))
      (agents_ m);
  wf_inbox : Forall (local_recipient m) (received_interactions_ m)
}.

Record env_ok (m : Master) (env : StepEnv) : Prop := {
  ok_incoming : ∀ i j, Forall (local_recipient m) (incoming env i j);
  ok_script : Forall (action_ok m) (script env);
  ok_modified :
    ∀ a, Forall (critical_update_ok m (Agent.id_ a)) (modified_critical env a)
}.

(** What a time step leaves alone. *)
Definition config (m : Master) : MasterId * MasterId * Catalog * Layout * Z :=
  (id_ m, nb_masters_ m, catalog m, layout m, period_ m).

(** Two agent maps hold agents with the same identifiers under the same
    keys. *)
Definition same_agents (x y : gmap AgentGlobalId Agent) : Prop :=
  ∀ g, option_Forall2
         (fun a b => Agent.id_ a = Agent.id_ b ∧ Agent.type_ a = Agent.type_ b)
         (x !! g) (y !! g).

(** ** Reading a trace *)

(** The methods entered, in order. *)
Definition phases (tr : list Event) : list Method :=
  omap (fun e => match e with Enter f => Some f | _ => None end) tr.




(** ** A small cluster

    Two agent types ([A] = 0, [B] = 1), one interaction type, two masters.
    Type [A] has the public attribute 0 (8 bytes) and the critical attribute 1
    (4 bytes); type [B] has the public attributes 0 and 1 (8 bytes each).
    The agents are [A0] (global identifier 0, on master 0), [B0] (1, on
    master 1) and [A1] (2, on master 0). *)

Definition example_catalog : Catalog :=
  {| nb_types_ := 2;
     nb_interactions_ := 1;
     interactions_MPI_types_ := {[ 0 := 40 ]};
     critical_structs_MPI_types_ := {[ 0 := 4 ]};
     critical_attributes_ := {[ (0, 1) ]};
     attributes_sizes_ := {[ (0, 0) := 8; (0, 1) := 4; (1, 0) := 8; (1, 1) := 8 ]};
     attributes_MPI_types_ :=
       {[ (0, 0) := 8; (0, 1) := 4; (1, 0) := 8; (1, 1) := 8 ]};
     public_attributes_offsets_ := {[ (0, 0) := 0; (1, 0) := 0; (1, 1) := 8 ]};
     public_attributes_struct_sizes_ := {[ 0 := 8; 1 := 16 ]};
     critical_attributes_offsets_ := {[ (0, 1) := 0 ]};
     critical_attributes_struct_sizes_ := {[ 0 := 4; 1 := 0 ]};
     agent_type_to_string_ := {[ 0 := "A"; 1 := "B" ]} |}.

Definition example_agent (id : AgentId) (type : AgentType)
    (attrs : gmap Attribute (list Z)) : Agent :=
  {| Agent.id_ := id; Agent.type_ := type; Agent.attributes := attrs;
     Agent.updated_critical_attributes_ := []; Agent.received := [] |}.

Definition example_bytes (n : nat) : list Z := replicate n 0.

(** The state in which the constructor calls [InitializeWindows]. *)
Definition example_constructed (id : MasterId)
    (agents : gmap AgentGlobalId Agent) : Master :=
  {| step_ := 0; order_ := IDLE; period_ := 1; id_ := id; nb_masters_ := 2;
     catalog := example_catalog;
     layout :=
       {| maximal_ids_ := []; agent_ids_by_types_ := [];
          masters_ := {[ 0 := 0; 1 := 1; 2 := 0 ]};
          public_agents_offsets_ := ∅; critical_agents_offsets_ := ∅;
          PublicWindowsDescription := [];
          CriticalWindowDescription := {| size := 0; used := 0 |};
          begin_public_window_ := nullptr; begin_critical_window_ := nullptr |};
     agents_ := agents;
     received_interactions_ := [];
     interactions_to_send_ := [[]; []];
     received_public_attributes_ := ∅;
     stored_public_attributes_ := CustomHeap.empty;
     memory := {| blocks := ∅; next_block := 1%positive |};
     trace := [] |}.

Definition example_agents0 : gmap AgentGlobalId Agent :=
  {[ 0 := example_agent 0 0 {[ 0 := example_bytes 8; 1 := example_bytes 4 ]};
     2 := example_agent 1 0 {[ 0 := example_bytes 8; 1 := example_bytes 4 ]} ]}.

Definition example_agents1 : gmap AgentGlobalId Agent :=
  {[ 1 := example_agent 0 1 {[ 0 := example_bytes 8; 1 := example_bytes 8 ]} ]}.

(** What [InitializeWindows] leaves in the layout of both masters, their
    window blocks apart. *)
Definition example_layout (public_begin critical_begin : pointer) : Layout :=
  {| maximal_ids_ := [2; 1];
     agent_ids_by_types_ := [{[ 0; 1 ]}; {[ 0 ]}];
     masters_ := {[ 0 := 0; 1 := 1; 2 := 0 ]};
     public_agents_offsets_ := {[ 0 := 0; 1 := 0; 2 := 8 ]};
     critical_agents_offsets_ := {[ 0 := 0; 1 := 4; 2 := 4 ]};
     PublicWindowsDescription :=
       [{| size := 32; used := 16 |}; {| size := 32; used := 16 |}];
     CriticalWindowDescription := {| size := 8; used := 0 |};
     begin_public_window_ := public_begin;
     begin_critical_window_ := critical_begin |}.

(** The masters once constructed. *)
Definition example_master (id : MasterId) (agents : gmap AgentGlobalId Agent)
  : Master :=
  {| step_ := 0; order_ := IDLE; period_ := 1; id_ := id; nb_masters_ := 2;
     catalog := example_catalog;
     layout := example_layout (Ptr 1%positive 0) (Ptr 2%positive 0);
     agents_ := agents;
     received_interactions_ := [];
     interactions_to_send_ := [[]; []];
     received_public_attributes_ := ∅;
     stored_public_attributes_ := CustomHeap.empty;
     memory :=
       {| blocks := {[ 1%positive := example_bytes 32;
                       2%positive := example_bytes 16 ]};
          next_block := 3%positive |};
     trace := [] |}.

Definition example_master0 : Master := example_master 0 example_agents0.
Definition example_master1 : Master := example_master 1 example_agents1.

Definition example_ping (recipient_id : AgentId) (recipient_type : AgentType)
  : Interaction :=
  {| Interaction.type_ := 0; Interaction.sender_id_ := 0;
     Interaction.sender_type_ := 0; Interaction.recipient_id_ := recipient_id;
     Interaction.recipient_type_ := recipient_type |}.


(** ** Comparing the window layouts of two masters *)

#[global] Instance result_fmap : FMap result := fun A B f r =>
  match r with
  | Ok a => Ok (f a)
  | Throw e => Throw e
  end.

(** The two offset maps that [InitializeWindows] fills. *)
Definition window_offsets (l : Layout)
  : gmap AgentGlobalId Z * gmap AgentGlobalId Z :=
  (public_agents_offsets_ l, critical_agents_offsets_ l).

(** The members that [InitializeWindows] fills are as the constructor leaves
    them before it calls [InitializeAgents]. *)
Definition fresh_windows (m : Master) : Prop :=
  public_agents_offsets_ (layout m) = ∅ ∧
  critical_agents_offsets_ (layout m) = ∅ ∧
  PublicWindowsDescription (layout m) = [] ∧
  agent_ids_by_types_ (layout m) = [].

(** Two layouts agree on what the loop of [InitializeWindows] reads and on
    the offsets it writes. *)
Definition layouts_agree (l1 l2 : Layout) : Prop :=
  masters_ l1 = masters_ l2 ∧
  public_agents_offsets_ l1 = public_agents_offsets_ l2 ∧
  critical_agents_offsets_ l1 = critical_agents_offsets_ l2 ∧
  PublicWindowsDescription l1 = PublicWindowsDescription l2 ∧
  size (CriticalWindowDescription l1) = size (CriticalWindowDescription l2) ∧
  length (agent_ids_by_types_ l1) = length (agent_ids_by_types_ l2) ∧
  length (maximal_ids_ l1) = length (maximal_ids_ l2).

(** Two results agree: both are layouts that agree, or both are the same
    exception. *)
Definition results_agree (r1 r2 : result Layout) : Prop :=
  match r1, r2 with
  | Ok l1, Ok l2 => layouts_agree l1 l2
  | Throw e1, Throw e2 => e1 = e2
  | _, _ => False
  end.

(** ** What the phases of a time step keep *)

(** Events that are neither the entry into a method nor a barrier. *)
Definition quiet_event (e : Event) : Prop :=
  match e with
  | Enter _ | MPI_Barrier => False
  | _ => True
  end.

Definition quiet (tr : list Event) : Prop := Forall quiet_event tr.

(** [m'] comes from [m] by steps that keep the configuration, the identifiers
    of the local agents, the number of buckets, the step counter, and that
    only add quiet events to the trace. *)
Record kept (m m' : Master) : Prop := {
  kept_config : config m' = config m;
  kept_agents : same_agents (agents_ m) (agents_ m');
  kept_buckets :
    length (interactions_to_send_ m') = length (interactions_to_send_ m);
  kept_step : step_ m' = step_ m;
  kept_trace : ∃ new, trace m' = trace m ++ new ∧ quiet new
}.


(** The outbox has one bucket per master and interaction type. *)
Definition buckets_ok (m : Master) : Prop :=
  0 ≤ nb_masters_ m ∧ 0 ≤ nb_interactions_ (catalog m) ∧
  nb_masters_ m * nb_interactions_ (catalog m) < 2 ^ 64 ∧
  Z.of_nat (length (interactions_to_send_ m))
  = nb_masters_ m * nb_interactions_ (catalog m).

(** What a method called by [RunTimeStep] keeps, and what it adds to the
    trace: its entry, then quiet events. *)
Record phase_kept (f : Method) (m m' : Master) : Prop := {
  phase_config : config m' = config m;
  phase_agents : same_agents (agents_ m) (agents_ m');
  phase_buckets :
    length (interactions_to_send_ m') = length (interactions_to_send_ m);
  phase_step : step_ m' = step_ m;
  phase_trace : ∃ new, trace m' = trace m ++ Enter f :: new ∧ quiet new
}.

(** [m'] comes from [m] by quiet events only. *)
Record only_logged (m m' : Master) : Prop := {
  logged_kept : kept m m';
  logged_agents : agents_ m' = agents_ m;
  logged_received : received_interactions_ m' = received_interactions_ m;
  logged_outbox : interactions_to_send_ m' = interactions_to_send_ m
}.

(** The events of one time step: the entries into the four methods, the
    barriers, and the quiet events [q1], [q2], [q4] of the first, second and
    fourth method. *)
Definition step_trace (q1 q2 q4 : list Event) : list Event :=
  Enter UpdateAllPublicAttributes_ :: q1 ++
  MPI_Barrier :: MPI_Barrier ::
  Enter SendReceiveInteractions_ :: q2 ++
  MPI_Barrier ::
  Enter DistributeReceivedInteractions_ ::
  MPI_Barrier ::
  Enter RunBehaviors_ :: q4 ++
  [MPI_Barrier].

(** The methods entered in one time step, in order. *)
Definition time_step_phases : list Method :=
  [UpdateAllPublicAttributes_; SendReceiveInteractions_;
   DistributeReceivedInteractions_; RunBehaviors_].

(** An environment in which nothing arrives and the behaviours call
    nothing. *)
Definition example_env : StepEnv :=
  {| incoming := fun _ _ => []; script := [];
     behavior_writes := Agent.attributes;
     modified_critical := fun _ => [] |}.

(** The state of the command interpreter once [init] has built master 0. *)
Definition example_state : UserInterface.State :=
  {| UserInterface.control := UserInterface.INIT;
     UserInterface.run := false;
     UserInterface.is_alive := true;
     UserInterface.master := example_master0;
     UserInterface.printed := [] |}.

(** * Properties *)

(** ** Machine arithmetic and accessors *)

Lemma wrap64_small x : 0 ≤ x < 2 ^ 64 → wrap64 x = x.
Proof. intros. unfold wrap64. by apply Z.mod_small. Qed.

Lemma wrap64_range x : 0 ≤ wrap64 x < 2 ^ 64.
Proof. unfold wrap64. apply Z.mod_pos_bound. lia. Qed.

Lemma map_at_Ok {K V} `{Countable K} (m : gmap K V) k v :
  map_at m k = Ok v ↔ m !! k = Some v.
Proof. unfold map_at. destruct (m !! k); split; congruence. Qed.

Lemma map_at_None {K V} `{Countable K} (m : gmap K V) k :
  m !! k = None → map_at m k = Throw out_of_range.
Proof. unfold map_at. by intros ->. Qed.

Lemma vector_at_Ok {A} (v : list A) i x :
  vector_at v i = Ok x ↔ 0 ≤ i ∧ v !! Z.to_nat i = Some x.
Proof.
  unfold vector_at. destruct (decide (0 ≤ i)); [|split; [done|lia]].
  destruct (v !! Z.to_nat i); split; intros; try congruence; try tauto.
  - inversion H; auto.
  - destruct H as [_ H]. by inversion H.
  - destruct H. discriminate.
Qed.

Lemma vector_at_ge {A} (v : list A) i :
  Z.of_nat (length v) ≤ i → vector_at v i = Throw out_of_range.
Proof.
  intros Hi. unfold vector_at. destruct (decide (0 ≤ i)); [|done].
  rewrite lookup_ge_None_2; [done|lia].
Qed.

Lemma vector_at_lt {A} (v : list A) i :
  0 ≤ i < Z.of_nat (length v) → ∃ x, vector_at v i = Ok x.
Proof.
  intros Hi. destruct (lookup_lt_is_Some_2 v (Z.to_nat i)) as [x Hx]; [lia|].
  exists x. apply vector_at_Ok. split; [lia|done].
Qed.

(** ** Global identifiers (C9) *)

(** Without overflow the global identifier is [T * i + t] and the decoders
    give back [i] and [t]. *)
Lemma LocalToGlobalId_no_overflow m i t :
  0 ≤ i → 0 ≤ t < nb_types_ (catalog m) →
  i * nb_types_ (catalog m) + t < 2 ^ 64 →
  LocalToGlobalId m i t = i * nb_types_ (catalog m) + t.
Proof.
  intros Hi Ht Hlt. unfold LocalToGlobalId.
  rewrite wrap64_small; [lia|]. split; [nia|lia].
Qed.

(** C9, as amended: for every local identifier [i] and type [t < T] such that
    [i * T + t] fits in 64 bits, [LocalToGlobalId (i, t) = i * T + t],
    [GlobalToLocalId] and [GlobalToLocalType] give back [i] and [t], and two
    such pairs with the same global identifier are equal. *)
Theorem LocalToGlobalId_inverse m i t :
  0 ≤ i → 0 ≤ t < nb_types_ (catalog m) →
  i * nb_types_ (catalog m) + t < 2 ^ 64 →
  LocalToGlobalId m i t = i * nb_types_ (catalog m) + t ∧
  GlobalToLocalId m (LocalToGlobalId m i t) = i ∧
  GlobalToLocalType m (LocalToGlobalId m i t) = t ∧
  ∀ i' t', 0 ≤ i' → 0 ≤ t' < nb_types_ (catalog m) →
           i' * nb_types_ (catalog m) + t' < 2 ^ 64 →
           LocalToGlobalId m i' t' = LocalToGlobalId m i t → i' = i ∧ t' = t.
Proof.
  intros Hi Ht Hlt.
  assert (Hdiv : ∀ j u, 0 ≤ u < nb_types_ (catalog m) →
            (j * nb_types_ (catalog m) + u) / nb_types_ (catalog m) = j).
  { intros j u Hu. rewrite Z.add_comm, Z.div_add by lia.
    rewrite Z.div_small by lia. lia. }
  assert (Hmod : ∀ j u, 0 ≤ u < nb_types_ (catalog m) →
            (j * nb_types_ (catalog m) + u) `mod` nb_types_ (catalog m) = u).
  { intros j u Hu. rewrite Z.add_comm, Z.mod_add by lia.
    by apply Z.mod_small. }
  rewrite LocalToGlobalId_no_overflow by done.
  unfold GlobalToLocalId, GlobalToLocalType.
  repeat split; [by apply Hdiv | by apply Hmod | |].
  - rewrite LocalToGlobalId_no_overflow in H2 by done.
    apply (f_equal (fun x => x / nb_types_ (catalog m))) in H2.
    by rewrite !Hdiv in H2.
  - rewrite LocalToGlobalId_no_overflow in H2 by done.
    apply (f_equal (fun x => x `mod` nb_types_ (catalog m))) in H2.
    by rewrite !Hmod in H2.
Qed.

Lemma LocalToGlobalId_inverse_witness :
  LocalToGlobalId example_master0 1 0 = 1 * 2 + 0 ∧
  GlobalToLocalId example_master0 (LocalToGlobalId example_master0 1 0) = 1 ∧
  GlobalToLocalType example_master0 (LocalToGlobalId example_master0 1 0) = 0 ∧
  ∀ i' t', 0 ≤ i' → 0 ≤ t' < 2 → i' * 2 + t' < 2 ^ 64 →
           LocalToGlobalId example_master0 i' t'
           = LocalToGlobalId example_master0 1 0 → i' = 1 ∧ t' = 0.
Proof.
  apply (LocalToGlobalId_inverse example_master0 1 0); simpl; lia.
Defined.

(** C9 as stated fails when [i * T + t] does not fit in 64 bits: with two
    types, the agent [(2^63, 0)] gets the global identifier 0, which is not
    [2^63 * 2 + 0], is decoded to the local identifier 0, and is also the
    global identifier of the agent [(0, 0)]. *)
Lemma LocalToGlobalId_overflow :
  let m := example_master0 in
  let i := 2 ^ 63 in
  let t := 0 in
  (0 ≤ i < 2 ^ 64 ∧ 0 ≤ t < nb_types_ (catalog m)) ∧
  LocalToGlobalId m i t ≠ i * nb_types_ (catalog m) + t ∧
  GlobalToLocalId m (LocalToGlobalId m i t) ≠ i ∧
  (LocalToGlobalId m i t = LocalToGlobalId m 0 0 ∧ (i, t) ≠ (0, 0)).
Proof. vm_compute. repeat split; congruence. Qed.

(** ** Sendable attributes (C10) *)

(** C10: [IsAttributeSendable(attr, t)] holds exactly when the size catalog,
    keyed by (agent type, attribute), has a key whose agent-type component is
    [attr] and whose attribute component is [t]; and the predicate gates
    [ModifyAttribute] on master 0: the checks are passed only if it holds, and
    for a declared type on which it does not hold the method prints its
    message and returns with nothing else changed and nothing broadcast. *)
Theorem IsAttributeSendable_key_order m attr t :
  (IsAttributeSendable m attr t = true ↔
   ∃ key : AgentType * Attribute,
     key ∈ dom (attributes_sizes_ (catalog m)) ∧ key.1 = attr ∧ key.2 = t) ∧
  (∀ agent_id m',
     id_ m = 0 →
     ModifyAttribute_checks m attr agent_id t = Returned (true, m') →
     IsAttributeSendable m attr t = true) ∧
  (∀ agent_id location from_root mailbox,
     id_ m = 0 → t < nb_types_ (catalog m) →
     IsAttributeSendable m attr t = false →
     ModifyAttribute m attr agent_id t location from_root mailbox
     = Returned
         (log (cerr "This attribute cannot be modified: it is not sendable.") m)).
Proof.
  split; [|split].
  - unfold IsAttributeSendable. rewrite bool_decide_eq_true. split.
    + intros Hs. exists (attr, t). by rewrite elem_of_dom.
    + intros [[a b] (Hk & <- & <-)]. by apply elem_of_dom.
  - intros agent_id m' Hid. unfold ModifyAttribute_checks.
    rewrite decide_True by done.
    destruct (decide (nb_types_ (catalog m) ≤ t)); [done|].
    by destruct (IsAttributeSendable m attr t).
  - intros agent_id location from_root mailbox Hid Ht Hs.
    unfold ModifyAttribute, ModifyAttribute_checks.
    rewrite decide_True by done. rewrite decide_False by lia. by rewrite Hs.
Qed.

Lemma IsAttributeSendable_key_order_witness :
  IsAttributeSendable example_master0 1 0 = true ∧
  ModifyAttribute example_master0 7 0 1 (Some [1; 2]) 0 []
  = Returned
      (log (cerr "This attribute cannot be modified: it is not sendable.")
         example_master0).
Proof.
  split.
  - apply (IsAttributeSendable_key_order example_master0 1 0).
    exists (1, 0). split; [|done]. by vm_compute.
  - apply (IsAttributeSendable_key_order example_master0 7 1);
      [reflexivity | simpl; lia | by vm_compute].
Defined.

(** ** The attribute-read path: [GetAttribute] (C5) *)

Lemma DoesAgentExist_declared m id type ids :
  0 ≤ type → agent_ids_by_types_ (layout m) !! Z.to_nat type = Some ids →
  DoesAgentExist m id type = Ok (bool_decide (id ∈ ids)).
Proof.
  intros Ht Hids. unfold DoesAgentExist.
  by rewrite (proj2 (vector_at_Ok _ _ _) (conj Ht Hids)).
Qed.

Lemma agent_exists_declared m id type ids :
  0 ≤ type → agent_ids_by_types_ (layout m) !! Z.to_nat type = Some ids →
  agent_exists m id type ↔ id ∈ ids.
Proof.
  intros Ht Hids. unfold agent_exists. split.
  - intros (_ & ids' & Hids' & Hin). congruence.
  - intros Hin. split; [done|]. by exists ids.
Qed.

(** For a type that is not an index of [agent_ids_by_types_], [at] throws
    before anything is looked for: this is what [GetAttribute] and
    [PushInteraction] then raise. *)
Lemma DoesAgentExist_undeclared m id type :
  Z.of_nat (length (agent_ids_by_types_ (layout m))) ≤ type →
  DoesAgentExist m id type = Throw out_of_range.
Proof. intros Ht. unfold DoesAgentExist. by rewrite vector_at_ge. Qed.

Lemma GetAttribute_undeclared m attr id type :
  Z.of_nat (length (agent_ids_by_types_ (layout m))) ≤ type →
  GetAttribute m attr id type = Throw out_of_range.
Proof.
  intros Ht. unfold GetAttribute. by rewrite DoesAgentExist_undeclared.
Qed.

Lemma PushInteraction_undeclared m inter :
  Z.of_nat (length (agent_ids_by_types_ (layout m)))
  ≤ Interaction.recipient_type_ inter →
  PushInteraction m inter = Throw out_of_range.
Proof.
  intros Ht. unfold PushInteraction. by rewrite DoesAgentExist_undeclared.
Qed.

Lemma GetCriticalAttribute_ok m attr g :
  critical_read_ok m g attr →
  ∃ agent_off attr_off,
    critical_agents_offsets_ (layout m) !! g = Some agent_off ∧
    critical_attributes_offsets_ (catalog m) !! (GlobalToLocalType m g, attr)
    = Some attr_off ∧
    GetCriticalAttribute m attr g
    = Ok (ptr_add (begin_critical_window_ (layout m))
            (wrap64 (agent_off + attr_off))).
Proof.
  intros [[a Ha] [b Hb]]. exists a, b. repeat split; [done..|].
  unfold GetCriticalAttribute.
  rewrite (proj2 (map_at_Ok _ _ _) Ha). simpl.
  by rewrite (proj2 (map_at_Ok _ _ _) Hb).
Qed.

(** A first request: the lookups succeed, the arena gives a location, the
    cache records it and one [MPI_Get] is issued. *)
Lemma GetPublicAttribute_miss m attr g :
  received_public_attributes_ m !! (g, attr) = None →
  public_read_ok m g attr →
  ∃ owner dt disp sz,
    masters_ (layout m) !! g = Some owner ∧
    attributes_sizes_ (catalog m) !! (GlobalToLocalType m g, attr) = Some sz ∧
    let '(location, heap, mem) :=
      CustomHeap.allocate sz (stored_public_attributes_ m) (memory m) in
    GetPublicAttribute m attr g
    = Ok (location,
          log (MPI_Get g attr location dt owner disp)
            (set_read_cache (<[(g, attr) := location]>
                               (received_public_attributes_ m)) heap mem m)).
Proof.
  intros Hmiss ([owner Ho] & [dt Hdt] & [ao Hao] & [po Hpo] & [sz Hsz]).
  exists owner, dt, (wrap64 (ao + po)), sz. repeat split; [done..|].
  unfold GetPublicAttribute, HasReceivedAttribute, PublicTargetDisp.
  rewrite Hmiss.
  rewrite (proj2 (map_at_Ok _ _ _) Ho). simpl.
  rewrite (proj2 (map_at_Ok _ _ _) Hdt). simpl.
  rewrite (proj2 (map_at_Ok _ _ _) Hao). simpl.
  rewrite (proj2 (map_at_Ok _ _ _) Hpo). simpl.
  rewrite (proj2 (map_at_Ok _ _ _) Hsz). simpl.
  by destruct (CustomHeap.allocate _ _ _) as [[??]?].
Qed.

(** A repeated request: the recorded location, and nothing else happens. *)
Lemma GetPublicAttribute_hit m attr g location :
  received_public_attributes_ m !! (g, attr) = Some location →
  GetPublicAttribute m attr g = Ok (location, m).
Proof.
  intros Hhit. unfold GetPublicAttribute, HasReceivedAttribute. by rewrite Hhit.
Qed.




(** ** Emitting an interaction: [PushInteraction] (C4) *)

(** C4: for an interaction whose recipient type is declared,
    [PushInteraction] appends the interaction to the bucket of index
    [recipient's master * number of interaction types + interaction type]
    when the recipient [(id, type)] is in the simulation, leaving every other
    bucket, and the trace, as they were; and when it is not, it prints the
    warning and leaves every bucket as it was.  The bucket is taken to exist
    (the outbox has one bucket per master and interaction type, the owner is
    a master, the interaction type is declared) and the two type names of the
    warning to be known. *)
Theorem PushInteraction_bucket m inter ids :
  let rid := Interaction.recipient_id_ inter in
  let rtype := Interaction.recipient_type_ inter in
  let nb_i := nb_interactions_ (catalog m) in
  0 ≤ rtype →
  agent_ids_by_types_ (layout m) !! Z.to_nat rtype = Some ids →
  buckets_ok m →
  (agent_exists m rid rtype →
   ∃ owner, masters_ (layout m) !! LocalToGlobalId m rid rtype = Some owner ∧
            0 ≤ owner < nb_masters_ m ∧ 0 ≤ Interaction.type_ inter < nb_i) →
  (¬ agent_exists m rid rtype →
   is_Some (agent_type_to_string_ (catalog m) !! Interaction.sender_type_ inter) ∧
   is_Some (agent_type_to_string_ (catalog m) !! rtype)) →
  (agent_exists m rid rtype →
   ∃ owner bucket,
     masters_ (layout m) !! LocalToGlobalId m rid rtype = Some owner ∧
     let i := Z.to_nat (owner * nb_i + Interaction.type_ inter) in
     interactions_to_send_ m !! i = Some bucket ∧
     ∃ m', PushInteraction m inter = Ok m' ∧
       interactions_to_send_ m' !! i = Some (bucket ++ [inter]) ∧
       (∀ j, j ≠ i → interactions_to_send_ m' !! j = interactions_to_send_ m !! j) ∧
       trace m' = trace m) ∧
  (¬ agent_exists m rid rtype →
   ∃ sender_name recipient_name,
     PushInteraction m inter
     = Ok (log (cerr (recipient_warning (Interaction.sender_id_ inter) sender_name
                        rid recipient_name)) m) ∧
     ∀ m', PushInteraction m inter = Ok m' →
           interactions_to_send_ m' = interactions_to_send_ m).
Proof.
  cbv zeta. intros Ht Hids Hb Hyes Hno.
  rewrite (agent_exists_declared m _ _ ids Ht Hids) in Hyes, Hno |- *.
  unfold PushInteraction.
  rewrite (DoesAgentExist_declared m _ _ ids) by done. simpl. split.
  - intros Hin. rewrite bool_decide_eq_true_2 by done.
    destruct (Hyes Hin) as (owner & Ho & Hrange & Hty).
    destruct Hb as (HM & HI & H64 & Hlen).
    set (nb_i := nb_interactions_ (catalog m)) in *.
    assert (Hidx : 0 ≤ owner * nb_i + Interaction.type_ inter
                   < nb_masters_ m * nb_i) by nia.
    destruct (vector_at_lt (interactions_to_send_ m)
                (owner * nb_i + Interaction.type_ inter)) as [bucket Hbucket];
      [lia|].
    pose proof (proj1 (vector_at_Ok _ _ _) Hbucket) as [_ Hlook].
    exists owner, bucket. split; [done|]. split; [done|].
    rewrite (proj2 (map_at_Ok _ _ _) Ho). simpl. fold nb_i.
    rewrite wrap64_small by lia. rewrite Hbucket. simpl.
    eexists. split; [done|]. simpl. repeat split.
    + apply list_lookup_insert_eq. by eapply lookup_lt_Some.
    + intros j Hj. by apply list_lookup_insert_ne.
  - intros Hnin. rewrite bool_decide_eq_false_2 by done.
    destruct (Hno Hnin) as [[sn Hs] [rn Hr]]. exists sn, rn.
    rewrite (proj2 (map_at_Ok _ _ _) Hs). simpl.
    rewrite (proj2 (map_at_Ok _ _ _) Hr). simpl.
    split; [done|]. by intros m' [= <-].
Qed.

Lemma example_master0_well_formed : well_formed example_master0.
Proof.
  split; [simpl; lia | simpl; lia | simpl; lia | reflexivity | | | |].
  - intros j Hj. simpl in Hj. assert (j = 0) as -> by lia. by eexists.
  - unfold example_master0, example_master, example_agents0. simpl.
    apply map_Forall_insert_2; [by eexists|].
    apply map_Forall_insert_2; [by eexists|]. apply map_Forall_empty.
  - unfold example_master0, example_master, example_agents0. simpl.
    apply map_Forall_insert_2; [by constructor|].
    apply map_Forall_insert_2; [by constructor|]. apply map_Forall_empty.
  - constructor.
Qed.

Lemma example_master0_buckets_ok : buckets_ok example_master0.
Proof. repeat split; simpl; lia. Qed.

Lemma PushInteraction_bucket_witness :
  (∃ m', PushInteraction example_master0 (example_ping 0 1) = Ok m' ∧
         interactions_to_send_ m' = [[]; [example_ping 0 1]]) ∧
  (∃ m', PushInteraction example_master0 (example_ping 7 1) = Ok m' ∧
         interactions_to_send_ m' = [[]; []] ∧
         ∃ msg, trace m' = [cerr msg]).
Proof.
  assert (H1 : 0 ≤ 1) by lia.
  assert (Hids1 : agent_ids_by_types_ (layout example_master0) !! Z.to_nat 1
                  = Some ({[ 0 ]} : gset Z)) by reflexivity.
  assert (Hex : agent_exists example_master0 0 1).
  { rewrite (agent_exists_declared _ _ _ _ H1 Hids1). by apply elem_of_singleton. }
  assert (Hno : ¬ agent_exists example_master0 7 1).
  { rewrite (agent_exists_declared _ _ _ _ H1 Hids1), elem_of_singleton. lia. }
  split.
  - pose proof (PushInteraction_bucket example_master0 (example_ping 0 1)
                  _ H1 Hids1 example_master0_buckets_ok) as H.
    cbv zeta in H. destruct H as [Hyes _].
    { intros _. exists 1. vm_compute. repeat split; congruence. }
    { intros Hcontra. by destruct (Hcontra Hex). }
    destruct (Hyes Hex) as (owner & bucket & Ho & Hb & m' & Hm' & _).
    exists m'. split; [done|]. vm_compute in Hm'. by injection Hm' as <-.
  - pose proof (PushInteraction_bucket example_master0 (example_ping 7 1)
                  _ H1 Hids1 example_master0_buckets_ok) as H.
    cbv zeta in H. destruct H as [_ Hnot].
    { intros Hcontra. by destruct (Hno Hcontra). }
    { intros _. split; by eexists. }
    destruct (Hnot Hno) as (sn & rn & Hm' & Hsame).
    eexists. split; [done|]. split; [by apply Hsame|]. by eexists.
Defined.

(** ** The attribute-read cache (C2) *)













(** ** The scratch arena (C6) *)

(** An allocation that fits leaves the arena where it is and the heap as it
    is. *)
Lemma allocate_in_place size h mem :
  wrap64 (CustomHeap.size_ h + size) ≤ CustomHeap.capacity_ h →
  CustomHeap.allocate size h mem
  = (ptr_add (CustomHeap.data_ h) (CustomHeap.size_ h),
     {| CustomHeap.data_ := CustomHeap.data_ h;
        CustomHeap.size_ := wrap64 (CustomHeap.size_ h + size);
        CustomHeap.capacity_ := CustomHeap.capacity_ h |},
     mem).
Proof. intros Hfit. unfold CustomHeap.allocate. by rewrite decide_True. Qed.

(** An allocation that does not fit in an arena that already has a block goes
    through [realloc]: the block of the arena is deallocated, and nothing can
    be read any more through a pointer into it. *)
Lemma allocate_relocates size h mem b :
  CustomHeap.data_ h = Ptr b 0 →
  b ≠ next_block mem →
  CustomHeap.capacity_ h < wrap64 (CustomHeap.size_ h + size) →
  ∀ o n, load (CustomHeap.allocate size h mem).2 (Ptr b o) n = None.
Proof.
  intros Hdata Hb Hbig o n. unfold CustomHeap.allocate.
  rewrite decide_False by lia. rewrite decide_False by (rewrite Hdata; done).
  rewrite Hdata. simpl. rewrite lookup_insert_ne by done.
  by rewrite lookup_delete_eq.
Qed.

(** C6 fails on the code.  In one step on master 0, a behaviour reads
    attribute 0 of the remote agent [B0] and gets [p1], through which 8 bytes
    can be read; a behaviour then reads attribute 1 of [B0]: the arena is full,
    [allocate] calls [realloc], and nothing can be read through [p1] any more;
    a third call for attribute 0 still returns [p1] from the cache. *)
Theorem GetPublicAttribute_dangling_pointer :
  match GetPublicAttribute (RunBehaviors_start example_master0) 0 1 with
  | Ok (p1, m1) =>
      valid_pointer (memory m1) p1 8 = true ∧
      match GetPublicAttribute m1 1 1 with
      | Ok (p2, m2) =>
          valid_pointer (memory m2) p1 8 = false ∧
          GetPublicAttribute m2 0 1 = Ok (p1, m2)
      | Throw _ => False
      end
  | Throw _ => False
  end.
Proof. vm_compute. repeat split. Qed.

(** ** [ModifyAttribute] on the masters other than 0 (C3) *)

(** A master other than 0 that does not hold the agent never comes back from
    [ModifyAttribute] when master 0 holds the agent, or when master 0 has sent
    it no message (it sends only to the master that holds the agent): an
    [at] throws, or [MPI_Recv] waits for ever. *)
Lemma ModifyAttribute_elsewhere m attr agent_id agent_type location g mailbox :
  id_ m ≠ 0 →
  agents_ m !! g = None →
  masters_ (layout m) !! g = Some 0 ∨ mailbox = [] →
  ∀ m', ModifyAttribute m attr agent_id agent_type location g mailbox
        ≠ Returned m'.
Proof.
  intros Hid Hagent Hcase m'. unfold ModifyAttribute, ModifyAttribute_checks.
  rewrite !decide_False by done. simpl. rewrite !decide_False by done.
  destruct (masters_ (layout m) !! g) as [owner|] eqn:Ho.
  - rewrite (proj2 (map_at_Ok _ _ _) Ho). simpl.
    destruct (decide (owner ≠ 0)) as [Hne|Heq].
    + destruct Hcase as [[= ->]| ->]; [done|].
      destruct (map_at (attributes_MPI_types_ (catalog m)) _); simpl;
        by destruct (decide (id_ m = 0)).
    + rewrite (map_at_None _ _ Hagent). by simpl.
  - rewrite (map_at_None _ _ Ho). by simpl.
Qed.

(** C3 fails on the code.  The order changes attribute 0 of the agent [A0],
    held by master 0, to the bytes 1..8.  It passes the checks of master 0,
    and master 0 commits the value; master 1, which runs [ModifyAttribute()]
    from [WaitOrderFromRoot], does not ignore the order: [agents_.at]
    throws [out_of_range]. *)
Theorem ModifyAttribute_other_master_throws :
  let value := [1; 2; 3; 4; 5; 6; 7; 8] in
  (∃ m, ModifyAttribute_checks example_master0 0 0 0 = Returned (true, m)) ∧
  (∃ m, ModifyAttribute example_master0 0 0 0 (Some value) 0 [] = Returned m ∧
        (a ← agents_ m !! 0; Agent.attributes a !! 0) = Some value) ∧
  ModifyAttribute example_master1 0 0 0 None 0 [] = Raised out_of_range.
Proof.
  intros value. split; [|split].
  - eexists. vm_compute. reflexivity.
  - eexists. split; vm_compute; reflexivity.
  - vm_compute. reflexivity.
Qed.

(** ** Window initialization on two masters (C8) *)

Lemma vector_at_same_length {A B} (v1 : list A) (v2 : list B) i :
  length v1 = length v2 →
  (∃ x1 x2, vector_at v1 i = Ok x1 ∧ vector_at v2 i = Ok x2) ∨
  (vector_at v1 i = Throw out_of_range ∧ vector_at v2 i = Throw out_of_range).
Proof.
  intros Hlen. unfold vector_at. destruct (decide (0 ≤ i)); [|by right].
  destruct (v1 !! Z.to_nat i) as [x1|] eqn:H1.
  - destruct (lookup_lt_is_Some_2 v2 (Z.to_nat i)) as [x2 H2].
    { rewrite <- Hlen. by eapply lookup_lt_Some. }
    left. exists x1, x2. by rewrite H2.
  - right. split; [done|]. rewrite lookup_ge_None_2; [done|].
    rewrite <- Hlen. by apply lookup_ge_None_1.
Qed.

(** One turn of the loop of [InitializeWindows] on two masters with the same
    number of types and the same record sizes. *)
Lemma InitializeWindows_body_agree m1 m2 l1 l2 g :
  nb_types_ (catalog m1) = nb_types_ (catalog m2) →
  public_attributes_struct_sizes_ (catalog m1)
  = public_attributes_struct_sizes_ (catalog m2) →
  critical_attributes_struct_sizes_ (catalog m1)
  = critical_attributes_struct_sizes_ (catalog m2) →
  layouts_agree l1 l2 →
  results_agree (InitializeWindows_body m1 l1 g) (InitializeWindows_body m2 l2 g).
Proof.
  intros HT Hps Hcs (Hm & Hpo & Hco & Hd & Hc & Hlt & Hlm).
  unfold InitializeWindows_body, GlobalToLocalType, GlobalToLocalId.
  rewrite <- HT, <- Hps, <- Hcs, <- Hm, <- Hpo, <- Hco, <- Hd, <- Hc.
  destruct (vector_at_same_length (agent_ids_by_types_ l1) (agent_ids_by_types_ l2)
              (g `mod` nb_types_ (catalog m1)) Hlt)
    as [(s1 & s2 & -> & ->) | [-> ->]]; [simpl|done].
  destruct (vector_at_same_length (maximal_ids_ l1) (maximal_ids_ l2)
              (g `mod` nb_types_ (catalog m1)) Hlm)
    as [(b1 & b2 & -> & ->) | [-> ->]]; [simpl|done].
  destruct (map_at (masters_ l1) g) as [master_id|]; [simpl|done].
  destruct (vector_at (PublicWindowsDescription l1) master_id) as [descr|];
    [simpl|done].
  destruct (map_at (public_attributes_struct_sizes_ (catalog m1)) _)
    as [public_size|]; [simpl|done].
  destruct (map_at (critical_attributes_struct_sizes_ (catalog m1)) _)
    as [critical_size|]; [simpl|done].
  repeat split; simpl; try done.
  - by rewrite !length_insert.
  - by rewrite !length_insert.
Qed.

Lemma foldM_results_agree m1 m2 ids l1 l2 :
  (∀ l1 l2 g, layouts_agree l1 l2 →
     results_agree (InitializeWindows_body m1 l1 g)
                   (InitializeWindows_body m2 l2 g)) →
  layouts_agree l1 l2 →
  results_agree (foldM (InitializeWindows_body m1) ids l1)
                (foldM (InitializeWindows_body m2) ids l2).
Proof.
  intros Hbody. revert l1 l2. induction ids as [|g ids IH]; intros l1 l2 Hl;
    simpl; [done|].
  specialize (Hbody l1 l2 g Hl).
  destruct (InitializeWindows_body m1 l1 g) as [l1'|e1],
           (InitializeWindows_body m2 l2 g) as [l2'|e2]; simpl in *; try done.
  by apply IH.
Qed.

Lemma results_agree_offsets r1 r2 :
  results_agree r1 r2 → window_offsets <$> r1 = window_offsets <$> r2.
Proof.
  destruct r1 as [l1|e1], r2 as [l2|e2]; simpl; try done.
  - intros (_ & Hpo & Hco & _). unfold fmap, result_fmap, window_offsets.
    by rewrite Hpo, Hco.
  - by intros ->.
Qed.

Lemma foldM_frame {A B} (P : B → Prop) (f : B → A → result B) l b b' :
  (∀ b x b', P b → f b x = Ok b' → P b') →
  P b → foldM f l b = Ok b' → P b'.
Proof.
  intros Hf. revert b. induction l as [|x l IH]; intros b Hb; simpl.
  - by intros [= <-].
  - destruct (f b x) as [b1|] eqn:Hfx; [simpl|done]. apply IH. by eapply Hf.
Qed.

(** [FillWindows] leaves the layout alone. *)
Lemma FillWindows_layout m ids m' :
  FillWindows m ids = Ok m' → layout m' = layout m.
Proof.
  unfold FillWindows.
  apply (foldM_frame (fun x => layout x = layout m)); [|done].
  intros b g b' Hb.
  destruct (map_at (masters_ (layout b)) g) as [owner|]; [simpl|done].
  destruct (decide (owner = id_ b)).
  - destruct (map_at (agents_ b) g); [simpl|done].
    destruct (map_at (public_agents_offsets_ (layout b)) g); [simpl|done].
    destruct (map_at (critical_agents_offsets_ (layout b)) g); [simpl|done].
    destruct (critical_structs_MPI_types_ (catalog b) !! _); simpl.
    + destruct (map_at (critical_agents_offsets_ (layout b)) g); [simpl|done].
      destruct (map_at (masters_ (layout b)) g); [simpl|done].
      by intros [= <-].
    + by intros [= <-].
  - simpl. destruct (critical_structs_MPI_types_ (catalog b) !! _); simpl.
    + destruct (map_at (critical_agents_offsets_ (layout b)) g); [simpl|done].
      destruct (map_at (masters_ (layout b)) g); [simpl|done].
      by intros [= <-].
    + by intros [= <-].
Qed.

(** What [InitializeWindows] leaves in the offset maps is what its loop
    computed. *)
Lemma InitializeWindows_offsets_kept m ids m' :
  InitializeWindows m ids = Ok m' →
  window_offsets <$> InitializeWindows_offsets m ids
  = Ok (window_offsets (layout m')).
Proof.
  unfold InitializeWindows.
  destruct (InitializeWindows_offsets m ids) as [l|]; [simpl|done].
  unfold malloc. intros Hfill. apply FillWindows_layout in Hfill. by rewrite Hfill.
Qed.

Lemma merge_sort_Permutation_eq (l1 l2 : list Z) :
  l1 ≡ₚ l2 → merge_sort Z.le l1 = merge_sort Z.le l2.
Proof.
  intros Hp. apply (Sorted_unique Z.le).
  - apply Sorted_merge_sort. intros x y. lia.
  - apply Sorted_merge_sort. intros x y. lia.
  - by rewrite !merge_sort_Permutation.
Qed.

(** C8: two masters with the same number of agent types and of masters that
    run window initialization from their freshly constructed members on the
    same agent global identifiers (in any order: the method sorts them), the
    same agent-to-master map and the same per-type public and critical record
    sizes compute the same public-offset map and the same critical-offset
    map, or stop on the same exception; and when [InitializeWindows] returns
    on both, these are the maps it leaves. *)
Theorem InitializeWindows_same_offsets m1 m2 agent_ids1 agent_ids2 :
  agent_ids1 ≡ₚ agent_ids2 →
  nb_types_ (catalog m1) = nb_types_ (catalog m2) →
  nb_masters_ m1 = nb_masters_ m2 →
  masters_ (layout m1) = masters_ (layout m2) →
  public_attributes_struct_sizes_ (catalog m1)
  = public_attributes_struct_sizes_ (catalog m2) →
  critical_attributes_struct_sizes_ (catalog m1)
  = critical_attributes_struct_sizes_ (catalog m2) →
  fresh_windows m1 → fresh_windows m2 →
  window_offsets <$> InitializeWindows_offsets m1 agent_ids1
  = window_offsets <$> InitializeWindows_offsets m2 agent_ids2 ∧
  ∀ m1' m2',
    InitializeWindows m1 agent_ids1 = Ok m1' →
    InitializeWindows m2 agent_ids2 = Ok m2' →
    public_agents_offsets_ (layout m1') = public_agents_offsets_ (layout m2') ∧
    critical_agents_offsets_ (layout m1') = critical_agents_offsets_ (layout m2').
Proof.
  intros Hperm HT HM Hmasters Hps Hcs (Hp1 & Hc1 & Hd1 & Ht1) (Hp2 & Hc2 & Hd2 & Ht2).
  assert (Hagree :
    window_offsets <$> InitializeWindows_offsets m1 agent_ids1
    = window_offsets <$> InitializeWindows_offsets m2 agent_ids2).
  { apply results_agree_offsets. unfold InitializeWindows_offsets.
    rewrite (merge_sort_Permutation_eq _ _ Hperm).
    apply foldM_results_agree.
    - intros l1 l2 g. by apply InitializeWindows_body_agree.
    - repeat split; simpl; congruence. }
  split; [done|]. intros m1' m2' H1 H2.
  apply InitializeWindows_offsets_kept in H1, H2.
  rewrite H1, H2 in Hagree. by injection Hagree.
Qed.

(** Masters 0 and 1 of the example, which hold different agents, initialize
    their windows on the identifiers given in two different orders. *)
Lemma InitializeWindows_same_offsets_witness :
  window_offsets
    <$> InitializeWindows_offsets (example_constructed 0 example_agents0) [2; 0; 1]
  = window_offsets
    <$> InitializeWindows_offsets (example_constructed 1 example_agents1) [0; 1; 2] ∧
  (window_offsets
     <$> InitializeWindows_offsets (example_constructed 0 example_agents0) [2; 0; 1]
   = Ok ({[ 0 := 0; 1 := 0; 2 := 8 ]}, {[ 0 := 0; 1 := 4; 2 := 4 ]})) ∧
  is_Ok (InitializeWindows (example_constructed 0 example_agents0) [2; 0; 1]) ∧
  is_Ok (InitializeWindows (example_constructed 1 example_agents1) [0; 1; 2]).
Proof.
  split; [|split; [|split]].
  - apply (InitializeWindows_same_offsets
             (example_constructed 0 example_agents0)
             (example_constructed 1 example_agents1) [2; 0; 1] [0; 1; 2]);
      try reflexivity.
    + etrans; [apply Permutation_swap|]. apply Permutation_skip.
      apply Permutation_swap.
    + by repeat split.
    + by repeat split.
  - vm_compute. reflexivity.
  - eexists. vm_compute. reflexivity.
  - eexists. vm_compute. reflexivity.
Defined.

(** ** The time step: no exception, and what it keeps *)

Lemma foldM_total {A B} (P : B → Prop) (f : B → A → result B) l b :
  (∀ b x, x ∈ l → P b → ∃ b', f b x = Ok b' ∧ P b') →
  P b → ∃ b', foldM f l b = Ok b' ∧ P b'.
Proof.
  revert b. induction l as [|x l IH]; intros b Hf Hb; simpl; [by eexists|].
  destruct (Hf b x) as (b1 & -> & Hb1); [by left|done|]. simpl.
  apply IH; [|done]. intros b2 y Hy. apply Hf. by right.
Qed.

Lemma same_agents_refl x : same_agents x x.
Proof. intros g. destruct (x !! g); by constructor. Qed.

Lemma same_agents_trans x y z :
  same_agents x y → same_agents y z → same_agents x z.
Proof.
  intros Hxy Hyz g. specialize (Hxy g). specialize (Hyz g).
  destruct Hxy as [a b [? ?]|]; inversion Hyz as [b' c [? ?]|]; subst;
    constructor. split; congruence.
Qed.

Lemma same_agents_insert x y g a b :
  same_agents x y → y !! g = Some a →
  Agent.id_ b = Agent.id_ a → Agent.type_ b = Agent.type_ a →
  same_agents x (<[g := b]> y).
Proof.
  intros Hxy Hg Hid Hty g'. destruct (decide (g = g')) as [<-|Hne].
  - rewrite lookup_insert_eq. specialize (Hxy g). rewrite Hg in Hxy.
    inversion Hxy as [a' ? [? ?]|]; subst. constructor. split; congruence.
  - rewrite lookup_insert_ne by done. apply Hxy.
Qed.

Lemma same_agents_is_Some x y g :
  same_agents x y → is_Some (x !! g) → is_Some (y !! g).
Proof.
  intros Hxy [a Ha]. specialize (Hxy g). rewrite Ha in Hxy.
  inversion Hxy. by eexists.
Qed.

Lemma kept_refl m : kept m m.
Proof.
  split; [done|apply same_agents_refl|done|done|].
  exists []. split; [by rewrite app_nil_r|constructor].
Qed.

Lemma kept_trans m1 m2 m3 : kept m1 m2 → kept m2 m3 → kept m1 m3.
Proof.
  intros [Hc1 Ha1 Hb1 Hs1 (n1 & Ht1 & Hq1)] [Hc2 Ha2 Hb2 Hs2 (n2 & Ht2 & Hq2)].
  split; try congruence.
  - by eapply same_agents_trans.
  - exists (n1 ++ n2). split; [by rewrite Ht2, Ht1, app_assoc|].
    by apply Forall_app.
Qed.

Lemma kept_log m e : quiet_event e → kept m (log e m).
Proof.
  intros He. split; [done|apply same_agents_refl|done|done|].
  exists [e]. split; [done|]. by repeat constructor.
Qed.

(** The configuration decides the catalog, the layout and the numbers of types
    and of masters. *)
Lemma config_fields m m' :
  config m' = config m →
  id_ m' = id_ m ∧ nb_masters_ m' = nb_masters_ m ∧ catalog m' = catalog m ∧
  layout m' = layout m ∧ period_ m' = period_ m.
Proof. unfold config. intros [= -> -> -> -> ->]. done. Qed.

Lemma LocalToGlobalId_config m m' id type :
  config m' = config m → LocalToGlobalId m' id type = LocalToGlobalId m id type.
Proof.
  intros Hc. destruct (config_fields _ _ Hc) as (_ & _ & Hcat & _).
  unfold LocalToGlobalId. by rewrite Hcat.
Qed.

Lemma GlobalToLocalType_config m m' g :
  config m' = config m → GlobalToLocalType m' g = GlobalToLocalType m g.
Proof.
  intros Hc. destruct (config_fields _ _ Hc) as (_ & _ & Hcat & _).
  unfold GlobalToLocalType. by rewrite Hcat.
Qed.

Lemma critical_update_ok_config m m' id attr :
  config m' = config m → critical_update_ok m id attr →
  critical_update_ok m' id attr.
Proof.
  intros Hc. destruct (config_fields _ _ Hc) as (_ & _ & Hcat & Hlay & _).
  unfold critical_update_ok. by rewrite (GlobalToLocalType_config _ _ _ Hc), Hcat, Hlay.
Qed.

Lemma local_recipient_kept m m' inter :
  config m' = config m → same_agents (agents_ m) (agents_ m') →
  local_recipient m inter → local_recipient m' inter.
Proof.
  intros Hc Ha. unfold local_recipient.
  rewrite (LocalToGlobalId_config _ _ _ _ Hc). by apply same_agents_is_Some.
Qed.

Lemma action_ok_config m m' a :
  config m' = config m → action_ok m a → action_ok m' a.
Proof.
  intros Hc. destruct (config_fields _ _ Hc) as (_ & HM & Hcat & Hlay & _).
  destruct a as [attr id type|inter]; simpl.
  - unfold agent_exists, IsCritical, critical_read_ok, public_read_ok.
    rewrite (LocalToGlobalId_config _ _ _ _ Hc).
    rewrite (GlobalToLocalType_config _ _ _ Hc). by rewrite Hcat, Hlay.
  - rewrite (LocalToGlobalId_config _ _ _ _ Hc). by rewrite Hcat, Hlay, HM.
Qed.

Lemma buckets_ok_kept m m' :
  config m' = config m →
  length (interactions_to_send_ m') = length (interactions_to_send_ m) →
  buckets_ok m → buckets_ok m'.
Proof.
  intros Hc Hlen. destruct (config_fields _ _ Hc) as (_ & HM & Hcat & _).
  unfold buckets_ok. by rewrite HM, Hcat, Hlen.
Qed.

(** A call of a behaviour that is [action_ok] returns, and keeps everything
    but the cache, the arena and one bucket. *)
Lemma run_action_total m a :
  buckets_ok m → action_ok m a →
  ∃ m', run_action m a = Ok m' ∧ kept m m' ∧
        agents_ m' = agents_ m ∧
        received_interactions_ m' = received_interactions_ m.
Proof.
  intros (HM & HI & H64 & Hlen). destruct a as [attr id type|inter]; simpl.
  - intros [(Ht & ids & Hids & Hin) Hread]. unfold GetAttribute.
    rewrite (DoesAgentExist_declared m id type ids) by done. simpl.
    rewrite bool_decide_eq_true_2 by done. simpl.
    destruct (IsCritical m attr type).
    + destruct (GetCriticalAttribute_ok _ _ _ Hread) as (a & b & _ & _ & ->).
      simpl. eexists. split; [done|]. split; [apply kept_refl|done].
    + destruct (received_public_attributes_ m
                  !! (LocalToGlobalId m id type, attr)) as [loc|] eqn:Hc.
      * rewrite (GetPublicAttribute_hit _ _ _ _ Hc). simpl.
        eexists. split; [done|]. split; [apply kept_refl|done].
      * destruct (GetPublicAttribute_miss _ _ _ Hc Hread)
          as (owner & dt & disp & sz & _ & _ & Hget).
        destruct (CustomHeap.allocate _ _ _) as [[loc heap] mem].
        rewrite Hget. simpl. eexists. split; [done|]. split; [|done].
        split; [done|apply same_agents_refl|done|done|].
        eexists [_]. split; [done|]. by repeat constructor.
  - intros (Ht & ids & Hids & Hok). unfold PushInteraction.
    rewrite (DoesAgentExist_declared m _ _ ids) by done. simpl.
    destruct (bool_decide (Interaction.recipient_id_ inter ∈ ids)).
    + destruct Hok as (owner & Ho & Hrange & Hty).
      set (nb_i := nb_interactions_ (catalog m)) in *.
      assert (Hidx : 0 ≤ owner * nb_i + Interaction.type_ inter
                     < nb_masters_ m * nb_i) by nia.
      destruct (vector_at_lt (interactions_to_send_ m)
                  (owner * nb_i + Interaction.type_ inter)) as [bucket Hb]; [lia|].
      rewrite (proj2 (map_at_Ok _ _ _) Ho). simpl. fold nb_i.
      rewrite wrap64_small by lia. rewrite Hb. simpl.
      eexists. split; [done|]. split; [|done].
      split; [done|apply same_agents_refl| |done|].
      * simpl. by rewrite length_insert.
      * exists []. split; [by rewrite app_nil_r|constructor].
    + destruct Hok as [[sn Hs] [rn Hr]].
      rewrite (proj2 (map_at_Ok _ _ _) Hs). simpl.
      rewrite (proj2 (map_at_Ok _ _ _) Hr). simpl.
      eexists. split; [done|]. split; [|done]. by apply kept_log.
Qed.

Lemma run_script_total s m :
  buckets_ok m → Forall (action_ok m) s →
  ∃ m', run_script m s = (m', None) ∧ kept m m' ∧
        agents_ m' = agents_ m ∧
        received_interactions_ m' = received_interactions_ m.
Proof.
  revert m. induction s as [|a s IH]; intros m Hb Hs; simpl.
  - eexists. split; [done|]. split; [apply kept_refl|done].
  - inversion Hs as [|? ? Ha Hs']; subst.
    destruct (run_action_total m a Hb Ha) as (m1 & -> & Hk1 & Ha1 & Hr1).
    destruct (IH m1) as (m' & -> & Hk & Ha' & Hr').
    + eapply buckets_ok_kept; [apply Hk1|apply Hk1|done].
    + eapply Forall_impl; [exact Hs'|]. intros x. apply action_ok_config, Hk1.
    + eexists. split; [done|]. split; [by eapply kept_trans|].
      split; congruence.
Qed.

(** [RunBehaviors] *)
Lemma RunBehaviors_total m env :
  buckets_ok m → Forall (action_ok m) (script env) →
  ∃ m', RunBehaviors m env = Ok m' ∧ phase_kept RunBehaviors_ m m' ∧
        agents_ m' = AgentHandler_RunBehaviors_end env <$> agents_ m ∧
        received_interactions_ m' = received_interactions_ m.
Proof.
  intros Hb Hs. unfold RunBehaviors.
  destruct (run_script_total (script env) (RunBehaviors_start m))
    as (m3 & -> & [Hc Ha Hl Hst (new & Ht & Hq)] & Hag & Hr); [done|done|].
  eexists. split; [done|]. simpl. split; [split|split]; simpl.
  - done.
  - rewrite Hag. simpl. intros g. rewrite lookup_fmap.
    destruct (agents_ m !! g); by constructor.
  - done.
  - done.
  - exists ((MPI_Win_lock_all public_window_ :: new)
            ++ [MPI_Win_unlock_all public_window_]).
    split.
    + rewrite Ht. simpl. by rewrite <- !app_assoc.
    + apply Forall_app. split; [by constructor|by repeat constructor].
  - by rewrite Hag.
  - by rewrite Hr.
Qed.

Lemma only_logged_refl m : only_logged m m.
Proof. split; [apply kept_refl|done..]. Qed.

Lemma only_logged_trans m1 m2 m3 :
  only_logged m1 m2 → only_logged m2 m3 → only_logged m1 m3.
Proof.
  intros [Hk1 Ha1 Hr1 Ho1] [Hk2 Ha2 Hr2 Ho2].
  split; [by eapply kept_trans|congruence..].
Qed.

Lemma only_logged_log m e : quiet_event e → only_logged m (log e m).
Proof. intros He. split; [by apply kept_log|done..]. Qed.

Lemma only_logged_foldl {A} (f : A → Event) (l : list A) m :
  (∀ x, quiet_event (f x)) →
  only_logged m (foldl (fun m' x => log (f x) m') m l).
Proof.
  intros Hf. revert m. induction l as [|x l IH]; intros m; simpl.
  - apply only_logged_refl.
  - eapply only_logged_trans; [apply (only_logged_log m (f x)), Hf|apply IH].
Qed.

Lemma UpdateCriticalAttribute_total m attr agent_id agent_type :
  critical_update_ok m agent_id attr →
  ∃ m', UpdateCriticalAttribute m attr agent_id agent_type = Ok m' ∧
        only_logged m m'.
Proof.
  intros ([a Ha] & [b Hb] & [dt Hdt]). unfold UpdateCriticalAttribute.
  rewrite (proj2 (map_at_Ok _ _ _) Ha). simpl.
  rewrite (proj2 (map_at_Ok _ _ _) Hb). simpl.
  rewrite (proj2 (map_at_Ok _ _ _) Hdt). simpl.
  eexists. split; [done|].
  apply (only_logged_foldl (fun id => MPI_Put attr dt id (wrap64 (a + b)))).
  done.
Qed.

(** [UpdateAllPublicAttributes] *)
Lemma UpdateAllPublicAttributes_total m :
  well_formed m →
  ∃ m', UpdateAllPublicAttributes m = Ok m' ∧
        phase_kept UpdateAllPublicAttributes_ m m' ∧
        received_interactions_ m' = received_interactions_ m ∧
        interactions_to_send_ m' = interactions_to_send_ m.
Proof.
  intros Hwf. unfold UpdateAllPublicAttributes.
  set (m1 := log (MPI_Win_lock_all critical_window_)
               (log (Enter UpdateAllPublicAttributes_) m)).
  set (P := fun b : Master =>
              kept m1 b ∧ received_interactions_ b = received_interactions_ m ∧
              interactions_to_send_ b = interactions_to_send_ m).
  destruct (foldM_total P AgentHandler_UpdateAllPublicAttributes_body
              (map_to_list (agents_ m)) m1) as (m2 & -> & Hk & Hr & Ho).
  - intros b [g a] Hin [Hk [Hr Ho]]. apply elem_of_map_to_list in Hin.
    unfold AgentHandler_UpdateAllPublicAttributes_body. simpl.
    assert (Hcb : config b = config m) by (rewrite (kept_config _ _ Hk); done).
    destruct (config_fields _ _ Hcb) as (_ & _ & Hcat & Hlay & _).
    pose proof (wf_public_offsets m Hwf g a Hin) as [off Hoff]. simpl in Hoff.
    unfold AgentPublicStructPointer.
    rewrite (LocalToGlobalId_config _ _ _ _ Hcb), Hlay.
    rewrite (proj2 (map_at_Ok _ _ _) Hoff). simpl.
    set (b1 := log (CopyPublicAttributes g _) b).
    destruct (foldM_total (only_logged b1)
                (fun m' attr =>
                   UpdateCriticalAttribute m' attr (Agent.id_ a) (Agent.type_ a))
                (Agent.updated_critical_attributes_ a) b1)
      as (b2 & -> & Hl2).
    + intros b' attr Hattr Hl'.
      destruct (UpdateCriticalAttribute_total b' attr (Agent.id_ a) (Agent.type_ a))
        as (b'' & -> & Hl'').
      * apply (critical_update_ok_config m).
        { rewrite (kept_config _ _ (logged_kept _ _ Hl')). exact Hcb. }
        pose proof (wf_updated m Hwf g a Hin) as Hall. simpl in Hall.
        rewrite Forall_forall in Hall. by apply Hall.
      * eexists. split; [done|]. by eapply only_logged_trans.
    + apply only_logged_refl.
    + simpl. eexists. split; [done|].
      assert (Hkb2 : kept m1 b2).
      { eapply kept_trans; [exact Hk|]. eapply kept_trans; [|apply Hl2].
        by apply kept_log. }
      split; [|split].
      * destruct Hkb2 as [Hc Ha Hlen Hst Htr].
        split; [done| |done|done|done]. simpl.
        pose proof (Ha g) as Hg. change (agents_ m1) with (agents_ m) in Hg.
        rewrite Hin in Hg. inversion Hg as [? a' [Hid Hty] Heq1 Heq2|]; subst.
        eapply same_agents_insert; [exact Ha|done|simpl; congruence..].
      * simpl. rewrite (logged_received _ _ Hl2). done.
      * simpl. rewrite (logged_outbox _ _ Hl2). done.
  - split; [apply kept_refl|done].
  - simpl. eexists. split; [done|].
    destruct Hk as [Hc Ha Hlen Hst (new & Ht & Hq)].
    split; [split|]; simpl; try done.
    exists ((MPI_Win_lock_all critical_window_ :: new)
            ++ [MPI_Win_unlock_all critical_window_]).
    split.
    + rewrite Ht. unfold m1. simpl. by rewrite <- !app_assoc.
    + apply Forall_app. split; [by constructor|by repeat constructor].
Qed.

(** [DistributeReceivedInteractions] *)
Lemma DistributeReceivedInteractions_total m :
  Forall (local_recipient m) (received_interactions_ m) →
  ∃ m', DistributeReceivedInteractions m = Ok m' ∧
        phase_kept DistributeReceivedInteractions_ m m' ∧
        received_interactions_ m' = [] ∧
        interactions_to_send_ m' = interactions_to_send_ m ∧
        trace m' = trace m ++ [Enter DistributeReceivedInteractions_].
Proof.
  intros Hlocal. unfold DistributeReceivedInteractions.
  set (m1 := log (Enter DistributeReceivedInteractions_) m).
  set (P := fun b : Master =>
              config b = config m ∧ same_agents (agents_ m) (agents_ b) ∧
              interactions_to_send_ b = interactions_to_send_ m ∧
              step_ b = step_ m ∧ trace b = trace m1).
  match goal with
  | |- context [foldM ?f ?l ?b] =>
      destruct (foldM_total P f l b) as (m2 & -> & Hc & Ha & Ho & Hst & Ht)
  end.
  - intros b inter Hin (Hc & Ha & Ho & Hst & Ht). simpl.
    rewrite Forall_forall in Hlocal. specialize (Hlocal inter Hin).
    rewrite (LocalToGlobalId_config _ _ _ _ Hc).
    destruct (same_agents_is_Some _ _ _ Ha Hlocal) as [a Hb].
    rewrite (proj2 (map_at_Ok _ _ _) Hb). simpl.
    eexists. split; [done|]. split; [done|]. split; [|done]. simpl.
    by eapply same_agents_insert.
  - split; [done|]. split; [apply same_agents_refl|done].
  - simpl. eexists. split; [done|].
    split; [|split; [done|split; [done|simpl; by rewrite Ht]]].
    split; simpl; [done|done|by rewrite Ho|done|].
    exists []. split; [by rewrite Ht|constructor].
Qed.

Lemma mapM_total {A B} (f : A → result B) (l : list A) :
  (∀ x, x ∈ l → ∃ y, f x = Ok y) → ∃ ys, mapM f l = Ok ys.
Proof.
  induction l as [|x l IH]; intros Hf; simpl; [by eexists|].
  destruct (Hf x) as [y ->]; [by left|]. simpl.
  destruct IH as [ys ->]; [intros z Hz; apply Hf; by right|]. simpl.
  by eexists.
Qed.

(** [SendReceiveInteractions] *)
Lemma SendReceiveInteractions_total m incoming :
  buckets_ok m →
  (∀ j, 0 ≤ j < nb_interactions_ (catalog m) →
        is_Some (interactions_MPI_types_ (catalog m) !! j)) →
  ∃ m', SendReceiveInteractions m incoming = Ok m' ∧
        phase_kept SendReceiveInteractions_ m m' ∧
        agents_ m' = agents_ m ∧
        received_interactions_ m'
        = received_interactions_ m
          ++ (i ← seqZ 0 (nb_masters_ m);
              j ← seqZ 0 (nb_interactions_ (catalog m)); incoming i j).
Proof.
  intros (HM & HI & H64 & Hlen) Htypes. unfold SendReceiveInteractions.
  set (nb_i := nb_interactions_ (catalog m)) in *.
  set (m0 := log (Enter SendReceiveInteractions_) m).
  destruct (mapM_total
              (fun i => bucket ← vector_at (interactions_to_send_ m) i;
                        Ok (Z.of_nat (length bucket)))
              (seqZ 0 (wrap64 (nb_masters_ m * nb_i)))) as [counts ->].
  { intros i Hi. apply elem_of_seqZ in Hi.
    rewrite wrap64_small in Hi by nia.
    destruct (vector_at_lt (interactions_to_send_ m) i) as [bucket ->]; [lia|].
    simpl. by eexists. }
  simpl.
  set (m1 := log (MPI_Alltoall counts) m0).
  destruct (foldM_total (only_logged m1)
              (fun m' i =>
                 foldM
                   (fun m'' j =>
                      bucket ← vector_at (interactions_to_send_ m)
                                 (wrap64 (i * nb_i + j));
                      foldM
                        (fun m3 inter =>
                           dt ← map_at (interactions_MPI_types_ (catalog m)) j;
                           Ok (log (MPI_Isend inter dt i) m3))
                        bucket m'')
                   (seqZ 0 nb_i) m')
              (seqZ 0 (nb_masters_ m)) m1) as (m2 & -> & Hl2).
  { intros b i Hi Hb. apply elem_of_seqZ in Hi.
    apply (foldM_total (only_logged m1)); [|done].
    intros b' j Hj Hb'. apply elem_of_seqZ in Hj.
    rewrite wrap64_small by nia.
    destruct (vector_at_lt (interactions_to_send_ m) (i * nb_i + j))
      as [bucket ->]; [nia|]. simpl.
    apply (foldM_total (only_logged m1)); [|done].
    intros b'' inter _ Hb''.
    destruct (Htypes j) as [dt Hdt]; [lia|].
    rewrite (proj2 (map_at_Ok _ _ _) Hdt). simpl.
    eexists. split; [done|].
    eapply only_logged_trans; [exact Hb''|]. by apply only_logged_log. }
  { apply only_logged_refl. }
  simpl.
  destruct (foldM_total (only_logged m2)
              (fun m' i =>
                 foldM
                   (fun m'' j =>
                      foldM
                        (fun m3 (_ : Interaction) =>
                           dt ← map_at (interactions_MPI_types_ (catalog m)) j;
                           Ok (log (MPI_Irecv dt i) m3))
                        (incoming i j) m'')
                   (seqZ 0 nb_i) m')
              (seqZ 0 (nb_masters_ m)) m2) as (m3 & -> & Hl3).
  { intros b i Hi Hb.
    apply (foldM_total (only_logged m2)); [|done].
    intros b' j Hj Hb'. apply elem_of_seqZ in Hj.
    apply (foldM_total (only_logged m2)); [|done].
    intros b'' inter _ Hb''.
    destruct (Htypes j) as [dt Hdt]; [lia|].
    rewrite (proj2 (map_at_Ok _ _ _) Hdt). simpl.
    eexists. split; [done|].
    eapply only_logged_trans; [exact Hb''|]. by apply only_logged_log. }
  { apply only_logged_refl. }
  simpl. eexists. split; [done|].
  pose proof (only_logged_trans _ _ _ Hl2 Hl3) as [Hk Ha Hr Ho].
  destruct Hk as [Hc Hsa Hlb Hst (new & Ht & Hq)].
  split; [split|split]; simpl; try done.
  - rewrite length_fmap. done.
  - exists (MPI_Alltoall counts :: new ++ [MPI_Waitall
              (Z.of_nat (length (i ← seqZ 0 (nb_masters_ m);
                                 j ← seqZ 0 nb_i; incoming i j))
               + foldr Z.add 0 counts)]).
    split.
    + rewrite Ht. unfold m1, m0. simpl. by rewrite <- !app_assoc.
    + constructor; [done|]. apply Forall_app. split; [done|by repeat constructor].
  - by rewrite Hr.
Qed.

Lemma well_formed_set_step_ v m : well_formed m → well_formed (set_step_ v m).
Proof. intros [? ? ? ? ? ? ? ?]. by split. Qed.

Lemma env_ok_kept m m' env :
  config m' = config m → same_agents (agents_ m) (agents_ m') →
  env_ok m env → env_ok m' env.
Proof.
  intros Hc Ha [Hi Hs Hm]. split.
  - intros i j. eapply Forall_impl; [apply Hi|].
    intros inter. by apply local_recipient_kept.
  - eapply Forall_impl; [exact Hs|]. intros a. by apply action_ok_config.
  - intros a. eapply Forall_impl; [apply Hm|].
    intros attr. by apply critical_update_ok_config.
Qed.

(** One time step of a well-formed master in an environment that is [env_ok]
    returns; it leaves a well-formed master with the same configuration and
    the same local agents, the step counter one further, and the events of
    [step_trace] added to the trace. *)
Lemma RunTimeStep_total m env :
  well_formed m → env_ok m env →
  ∃ m', RunTimeStep m env = Ok m' ∧
        well_formed m' ∧ config m' = config m ∧
        same_agents (agents_ m) (agents_ m') ∧
        step_ m' = wrap64 (step_ m + 1) ∧
        received_interactions_ m' = [] ∧
        ∃ q1 q2 q4, trace m' = trace m ++ step_trace q1 q2 q4 ∧
                    quiet q1 ∧ quiet q2 ∧ quiet q4.
Proof.
  intros Hwf [Hinc Hscript Hmod]. unfold RunTimeStep.
  set (m0 := set_step_ (wrap64 (step_ m + 1)) m).
  destruct (UpdateAllPublicAttributes_total m0)
    as (m1 & -> & [Hc1 Ha1 Hb1 Hs1 (q1 & Ht1 & Hq1)] & Hr1 & Ho1);
    [by apply well_formed_set_step_|]. simpl.
  set (m1' := Synchronize (Synchronize m1)).
  assert (Hcm1 : config m1' = config m) by exact Hc1.
  assert (Hbuckets : ∀ x, config x = config m →
            length (interactions_to_send_ x) = length (interactions_to_send_ m) →
            buckets_ok x).
  { intros x Hcx Hlx. apply (buckets_ok_kept m); [done|done|].
    destruct Hwf; by repeat split. }
  destruct (SendReceiveInteractions_total m1' (incoming env))
    as (m2 & -> & [Hc2 Ha2 Hb2 Hs2 (q2 & Ht2 & Hq2)] & Hag2 & Hr2).
  { apply Hbuckets; [done|]. exact Hb1. }
  { destruct (config_fields _ _ Hcm1) as (_ & _ & -> & _).
    apply (wf_interaction_types m Hwf). }
  simpl. set (m2' := Synchronize m2).
  assert (Hcm2 : config m2' = config m)
    by (transitivity (config m1'); [exact Hc2|exact Hcm1]).
  assert (Ham2 : same_agents (agents_ m) (agents_ m2')).
  { unfold m2'. simpl. rewrite Hag2. exact Ha1. }
  destruct (DistributeReceivedInteractions_total m2')
    as (m3 & -> & [Hc3 Ha3 Hb3 Hs3 _] & Hr3 & Ho3 & Ht3).
  { unfold m2'. simpl. rewrite Hr2. simpl. rewrite Hr1. simpl.
    apply Forall_app. split.
    - eapply Forall_impl; [apply (wf_inbox m Hwf)|].
      intros inter. by apply local_recipient_kept.
    - apply Forall_bind, Forall_forall. intros i _.
      apply Forall_bind, Forall_forall. intros j _.
      eapply Forall_impl; [apply Hinc|].
      intros inter. by apply local_recipient_kept. }
  simpl. set (m3' := Synchronize m3).
  assert (Hcm3 : config m3' = config m)
    by (transitivity (config m2'); [exact Hc3|exact Hcm2]).
  assert (Ham3 : same_agents (agents_ m) (agents_ m3')).
  { eapply same_agents_trans; [exact Ham2|exact Ha3]. }
  destruct (RunBehaviors_total m3' env)
    as (m4 & -> & [Hc4 Ha4 Hb4 Hs4 (q4 & Ht4 & Hq4)] & Hag4 & Hr4).
  { apply Hbuckets; [done|]. unfold m3'. simpl. rewrite Hb3. simpl.
    rewrite Hb2. exact Hb1. }
  { eapply Forall_impl; [exact Hscript|]. intros a. by apply action_ok_config. }
  simpl. eexists. split; [done|].
  assert (Hcm4 : config (Synchronize m4) = config m)
    by (transitivity (config m3'); [exact Hc4|exact Hcm3]).
  assert (Ham4 : same_agents (agents_ m) (agents_ (Synchronize m4))).
  { eapply same_agents_trans; [exact Ham3|exact Ha4]. }
  destruct (config_fields _ _ Hcm4) as (_ & HM & Hcat & Hlay & _).
  split; [|split; [done|split; [done|split; [|split]]]].
  - destruct Hwf as [w1 w2 w3 w4 w5 w6 w7 w8].
    split; rewrite ?HM, ?Hcat; try done.
    + simpl. rewrite Hb4. unfold m3'. simpl. rewrite Hb3. unfold m2'. simpl.
      rewrite Hb2. unfold m1'. simpl. rewrite Hb1. exact w4.
    + intros g a' Hg. specialize (Ham4 g). rewrite Hg in Ham4.
      inversion Ham4 as [a ? [Hid Hty] Heq1 Heq2|]; subst.
      rewrite (LocalToGlobalId_config _ _ _ _ Hcm4), Hlay, <- Hid, <- Hty.
      apply (w6 g a). done.
    + intros g a' Hg. simpl in Hg. rewrite Hag4, lookup_fmap in Hg.
      destruct (agents_ m3' !! g) as [a3|]; [|done].
      injection Hg as <-. simpl.
      eapply Forall_impl; [apply Hmod|].
      intros attr. by apply critical_update_ok_config.
    + simpl. rewrite Hr4. unfold m3'. simpl. rewrite Hr3. constructor.
  - simpl. rewrite Hs4. unfold m3'. simpl. rewrite Hs3. unfold m2'. simpl.
    rewrite Hs2. unfold m1'. simpl. rewrite Hs1. done.
  - simpl. rewrite Hr4. unfold m3'. simpl. by rewrite Hr3.
  - exists q1, q2, q4. split; [|done]. simpl. rewrite Ht4. unfold m3'. simpl.
    rewrite Ht3. unfold m2'. simpl. rewrite Ht2. unfold m1'. simpl.
    rewrite Ht1. unfold m0, step_trace. simpl.
    repeat (rewrite <- app_assoc; simpl). done.
Qed.

(** ** The order of the phases (C1) *)

Lemma phases_app tr tr' : phases (tr ++ tr') = phases tr ++ phases tr'.
Proof. apply omap_app. Qed.

Lemma phases_quiet q : quiet q → phases q = [].
Proof.
  induction 1 as [|e q He _ IH]; [done|].
  destruct e; first [by destruct He | exact IH].
Qed.




Lemma phases_step_trace q1 q2 q4 :
  quiet q1 → quiet q2 → quiet q4 →
  phases (step_trace q1 q2 q4) = time_step_phases.
Proof.
  intros H1 H2 H4. unfold step_trace.
  repeat (rewrite ?phases_app; first
    [ rewrite (phases_quiet q1 H1) | rewrite (phases_quiet q2 H2)
    | rewrite (phases_quiet q4 H4)
    | change (phases (?e :: ?l)) with (phases [e] ++ phases l) ]; simpl).
  done.
Qed.



Lemma example_env_ok m : env_ok m example_env.
Proof. split; simpl; [intros _ _|..]; constructor. Qed.




(** ** [set_period] then [run] (C7) *)

Lemma wrap64_idemp_l a b : wrap64 (wrap64 a + b) = wrap64 (a + b).
Proof. unfold wrap64. by rewrite Zplus_mod_idemp_l. Qed.

(** [n] time steps in a row. *)
Lemma RunTimeSteps_total env n : ∀ t m,
  well_formed m → (∀ t, env_ok m (env t)) → 0 ≤ step_ m < 2 ^ 64 →
  ∃ m', RunTimeSteps n t env m = Ok m' ∧
        well_formed m' ∧ config m' = config m ∧
        same_agents (agents_ m) (agents_ m') ∧
        step_ m' = wrap64 (step_ m + Z.of_nat n) ∧
        ∃ new, trace m' = trace m ++ new ∧
               phases new = concat (replicate n time_step_phases).
Proof.
  induction n as [|n IH]; intros t m Hwf Henv Hstep; simpl.
  - exists m. split; [done|]. split; [done|]. split; [done|].
    split; [apply same_agents_refl|]. split.
    + rewrite Z.add_0_r. by rewrite wrap64_small.
    + exists []. by rewrite app_nil_r.
  - destruct (RunTimeStep_total m (env t) Hwf (Henv t))
      as (m1 & -> & Hwf1 & Hc1 & Ha1 & Hs1 & _ & q1 & q2 & q4 & Ht1 & H1 & H2 & H4).
    simpl.
    destruct (IH (S t) m1 Hwf1) as (m' & -> & Hwf' & Hc' & Ha' & Hs' & new & Ht' & Hp').
    { intros t'. by apply (env_ok_kept m). }
    { rewrite Hs1. apply wrap64_range. }
    exists m'. split; [done|]. split; [done|]. split; [congruence|].
    split; [by eapply same_agents_trans|]. split.
    + rewrite Hs', Hs1. rewrite wrap64_idemp_l. f_equal. lia.
    + exists (step_trace q1 q2 q4 ++ new). split.
      * by rewrite Ht', Ht1, app_assoc.
      * rewrite phases_app, Hp'. by rewrite phases_step_trace.
Qed.

(** [RunSimulation] on master 0: [period_] time steps. *)
Lemma RunSimulation_total env m :
  id_ m = 0 → 0 ≤ period_ m →
  well_formed m → (∀ t, env_ok m (env t)) → 0 ≤ step_ m < 2 ^ 64 →
  ∃ m', RunSimulation m env = Ok m' ∧
        well_formed m' ∧ config m' = config m ∧
        same_agents (agents_ m) (agents_ m') ∧
        step_ m' = wrap64 (step_ m + period_ m) ∧
        ∃ new, trace m' = trace m ++ new ∧
               phases new
               = concat (replicate (Z.to_nat (period_ m)) time_step_phases).
Proof.
  intros Hid Hp Hwf Henv Hstep. unfold RunSimulation. rewrite decide_True by done.
  set (m0 := log (MPI_Bcast_order RUN_SIMULATION) (set_order_ RUN_SIMULATION m)).
  destruct (RunTimeSteps_total env (Z.to_nat (period_ m0)) 0%nat m0)
    as (m' & -> & Hwf' & Hc' & Ha' & Hs' & new & Ht' & Hp').
  { destruct Hwf. by split. }
  { intros t. destruct (Henv t). by split. }
  { done. }
  exists m'. split; [done|]. split; [done|]. split; [done|]. split; [done|].
  split.
  - rewrite Hs'. simpl. by rewrite Z2Nat.id.
  - exists (MPI_Bcast_order RUN_SIMULATION :: new). split.
    + rewrite Ht'. simpl. by rewrite <- app_assoc.
    + exact Hp'.
Qed.

(** [n] calls of [RunSimulation] on master 0. *)
Lemma RunSimulations_total env n : ∀ k m,
  id_ m = 0 → 0 ≤ period_ m →
  well_formed m → (∀ k t, env_ok m (env k t)) → 0 ≤ step_ m < 2 ^ 64 →
  ∃ m', UserInterface.RunSimulations n k env m = Ok m' ∧
        step_ m' = wrap64 (step_ m + Z.of_nat n * period_ m) ∧
        ∃ new, trace m' = trace m ++ new ∧
               phases new
               = concat (replicate (n * Z.to_nat (period_ m)) time_step_phases).
Proof.
  induction n as [|n IH]; intros k m Hid Hp Hwf Henv Hstep; simpl.
  - exists m. split; [done|]. split.
    + rewrite Z.add_0_r. by rewrite wrap64_small.
    + exists []. by rewrite app_nil_r.
  - destruct (RunSimulation_total (env k) m Hid Hp Hwf (Henv k) Hstep)
      as (m1 & -> & Hwf1 & Hc1 & Ha1 & Hs1 & new1 & Ht1 & Hp1).
    simpl. destruct (config_fields _ _ Hc1) as (Hid1 & _ & _ & _ & Hper1).
    destruct (IH (S k) m1) as (m' & -> & Hs' & new & Ht' & Hp').
    { congruence. } { congruence. } { done. }
    { intros k' t'. by apply (env_ok_kept m). }
    { rewrite Hs1. apply wrap64_range. }
    exists m'. split; [done|]. split.
    + rewrite Hs', Hs1, Hper1. rewrite wrap64_idemp_l. f_equal. lia.
    + exists (new1 ++ new). split.
      * by rewrite Ht', Ht1, app_assoc.
      * rewrite phases_app, Hp1, Hp', Hper1.
        by rewrite replicate_add, concat_app.
Qed.

(** C7: for every period [k] (a [Time], at least 1) and every number of
    steps [n] (a non-negative [int]), the commands [set_period k] and [run n]
    on a live master 0 that is well formed, in environments whose calls and
    arrivals raise nothing, return; the step counter has then been
    incremented [k * n] times (its value is the old one plus [k * n] in
    64-bit arithmetic, hence exactly that when it fits), by [k * n] time
    steps. *)
Theorem set_period_run_steps (s : UserInterface.State) env k n :
  UserInterface.is_alive s = true →
  id_ (UserInterface.master s) = 0 →
  well_formed (UserInterface.master s) →
  (∀ i t, env_ok (UserInterface.master s) (env i t)) →
  0 ≤ TimeStep (UserInterface.master s) < 2 ^ 64 →
  1 ≤ k < 2 ^ 64 → 0 ≤ n < 2 ^ 31 →
  ∃ s1 s2,
    UserInterface.Parse (UserInterface.set_period_command k) env s = Ok s1 ∧
    UserInterface.Parse (UserInterface.run_command (Some n)) env s1 = Ok s2 ∧
    TimeStep (UserInterface.master s2)
    = wrap64 (TimeStep (UserInterface.master s) + k * n) ∧
    (TimeStep (UserInterface.master s) + k * n < 2 ^ 64 →
     TimeStep (UserInterface.master s2)
     = TimeStep (UserInterface.master s) + k * n) ∧
    ∃ new,
      trace (UserInterface.master s2)
      = trace (UserInterface.master s1) ++ new ∧
      phases new = concat (replicate (Z.to_nat (k * n)) time_step_phases).
Proof.
  intros Halive Hid Hwf Henv Hstep Hk Hn.
  set (m1 := ChangePeriod (UserInterface.master s) k k).
  assert (Hm1 : m1 = log (MPI_Bcast_uint64 k)
                       (set_period_ k
                          (log (MPI_Bcast_order CHANGE_PERIOD)
                             (set_order_ CHANGE_PERIOD (UserInterface.master s))))).
  { unfold m1, ChangePeriod. by rewrite decide_True. }
  destruct (RunSimulations_total env (Z.to_nat n) 0%nat m1)
    as (m' & Hrun & Hs' & new & Ht' & Hp').
  { by rewrite Hm1. }
  { rewrite Hm1. simpl. lia. }
  { rewrite Hm1. destruct Hwf. by split. }
  { intros i t. rewrite Hm1. destruct (Henv i t). by split. }
  { by rewrite Hm1. }
  assert (Hperiod : period_ m1 = k) by (by rewrite Hm1).
  assert (Hstep1 : step_ m1 = step_ (UserInterface.master s)) by (by rewrite Hm1).
  unfold TimeStep in *. rewrite Hperiod, Hstep1 in Hs'.
  rewrite Z2Nat.id in Hs' by lia.
  assert (Heq : step_ m' = wrap64 (step_ (UserInterface.master s) + k * n)).
  { rewrite Hs'. f_equal. lia. }
  exists {| UserInterface.control := UserInterface.control s;
            UserInterface.run := UserInterface.run s;
            UserInterface.is_alive := UserInterface.is_alive s;
            UserInterface.master := m1;
            UserInterface.printed := UserInterface.printed s |},
         {| UserInterface.control := UserInterface.RUN;
            UserInterface.run := UserInterface.run s;
            UserInterface.is_alive := UserInterface.is_alive s;
            UserInterface.master := m';
            UserInterface.printed := UserInterface.printed s |}.
  split; [|split].
  - unfold UserInterface.Parse. by rewrite Halive.
  - unfold UserInterface.Parse. simpl. rewrite Halive, Hrun. done.
  - simpl. split; [done|]. split.
    + intros Hfit. rewrite Heq. apply wrap64_small. nia.
    + exists new. split; [done|]. rewrite Hp', Hperiod. f_equal. f_equal.
      rewrite Z2Nat.inj_mul by lia. lia.
Qed.

Lemma set_period_run_steps_witness :
  ∃ s1 s2,
    UserInterface.Parse (UserInterface.set_period_command 3)
      (fun _ _ => example_env) example_state = Ok s1 ∧
    UserInterface.Parse (UserInterface.run_command (Some 2))
      (fun _ _ => example_env) s1 = Ok s2 ∧
    TimeStep (UserInterface.master s2) = 6.
Proof.
  destruct (set_period_run_steps example_state (fun _ _ => example_env) 3 2)
    as (s1 & s2 & H1 & H2 & _ & Hsteps & _).
  - reflexivity.
  - reflexivity.
  - apply example_master0_well_formed.
  - intros _ _. apply example_env_ok.
  - simpl. lia.
  - lia.
  - lia.
  - exists s1, s2. split; [done|]. split; [done|]. apply Hsteps. simpl. lia.
Defined.
